(** * file-loader: a shallow embedding of [src/index.js]

    The loader takes the bytes of a file, asks the host for a name,
    works out where the file is written ([outputPath]) and how the
    bundle refers to it ([publicPath]), hands the bytes to the host
    ([this.emitFile]) and returns one line of JavaScript.

    JavaScript strings are modelled as Rocq strings holding their UTF-8
    bytes; buffers are lists of bytes.  The host and the functions found
    in the options are the only sources of effects: they are threaded
    through an explicit state and every call made to them is recorded
    in a trace.  The functions of the options are called with strings
    and, as the comment on line 46 of the source asks of them, return
    a path string or throw. *)

From Stdlib Require Import Ascii String List ZArith Lia Bool.
From stdpp Require Import base option strings gmap sorting.

Local Open Scope string_scope.

(** ** Strings *)

Module Str.

(** [s.endsWith(c)] for a one-character suffix. *)
Fixpoint endsWith (s : string) (c : ascii) : bool :=
  match s with
  | EmptyString => false
  | String a EmptyString => if Ascii.eqb a c then true else false
  | String _ rest => endsWith rest c
  end.

(** [s.length === 0], the only falsy string. *)
Definition is_empty (s : string) : bool :=
  match s with
  | EmptyString => true
  | String _ _ => false
  end.

Definition hex_digit (n : N) : ascii :=
  if (n <? 10)%N then ascii_of_N (48 + n) else ascii_of_N (87 + n).

(** One character the way [JSON.stringify] writes it inside a
    string literal (ECMA-262, QuoteJSONString). *)
Definition json_escape (a : ascii) : string :=
  let n := N_of_ascii a in
  if (n =? 34)%N then "\" ++ String a ""
  else if (n =? 92)%N then "\\"
  else if (n =? 8)%N then "\b"
  else if (n =? 9)%N then "\t"
  else if (n =? 10)%N then "\n"
  else if (n =? 12)%N then "\f"
  else if (n =? 13)%N then "\r"
  else if (n <? 32)%N then
    "\u00" ++ String (hex_digit (n / 16)) (String (hex_digit (n mod 16)) "")
  else String a "".

Fixpoint json_body (s : string) : string :=
  match s with
  | EmptyString => ""
  | String a rest => json_escape a ++ json_body rest
  end.

Definition dquote : string := String (ascii_of_N 34) "".

(** [JSON.stringify(s)] for a string [s]. *)
Definition JSON_stringify (s : string) : string :=
  dquote ++ json_body s ++ dquote.

End Str.

(** ** [path.posix] *)

Module Posix.

Definition slash : ascii := "/"%char.

(** [s.split('/')], with the segment being read kept in [cur]. *)
Fixpoint split_from (cur : string) (s : string) : list string :=
  match s with
  | EmptyString => [cur]
  | String a rest =>
      if Ascii.eqb a slash then cur :: split_from "" rest
      else split_from (cur ++ String a "") rest
  end.

Definition split (s : string) : list string := split_from "" s.

(** One segment pushed on the segments kept so far (most recent
    first): empty and [.] segments vanish, [..] removes the segment
    before it, or stays when there is none and the path is relative. *)
Definition push_segment (allowAboveRoot : bool) (kept : list string)
    (seg : string) : list string :=
  if String.eqb seg "" || String.eqb seg "." then kept
  else if String.eqb seg ".." then
    match kept with
    | top :: below =>
        if String.eqb top ".." then
          (if allowAboveRoot then seg :: kept else kept)
        else below
    | [] => if allowAboveRoot then [seg] else []
    end
  else seg :: kept.

Definition normalizeString (path : string) (allowAboveRoot : bool) : string :=
  String.concat "/"
    (rev (fold_left (push_segment allowAboveRoot) (split path) [])).

Definition isAbsolute (path : string) : bool :=
  match path with
  | String a _ => Ascii.eqb a slash
  | EmptyString => false
  end.

(** [path.posix.normalize(path)] *)
Definition normalize (path : string) : string :=
  if Str.is_empty path then "."
  else
    let absolute := isAbsolute path in
    let trailingSeparator := Str.endsWith path slash in
    let p := normalizeString path (negb absolute) in
    if Str.is_empty p then
      (if absolute then "/" else if trailingSeparator then "./" else ".")
    else
      let p := if trailingSeparator then p ++ "/" else p in
      if absolute then "/" ++ p else p.

(** [path.posix.join(a, b)]: the non-empty arguments are glued with
    [/] and the result is normalised. *)
Definition join (a b : string) : string :=
  match Str.is_empty a, Str.is_empty b with
  | true, true => "."
  | true, false => normalize b
  | false, true => normalize a
  | false, false => normalize (a ++ "/" ++ b)
  end.

End Posix.

(** ** Values, errors and the trace of calls *)

Definition Buffer : Type := list Byte.byte.

Inductive jstype := TString | TBoolean | TFunction | TRegExp.

(** What the validator reports about one property of the options. *)
Inductive Violation :=
| UnknownProperty (key : string)
| WrongType (key : string) (expected : list jstype).

(** What a call can throw.  [ValidationError] is what schema-utils
    throws (the ConfigurationError of the specification); anything
    else is whatever a function of the user or the host threw. *)
Inductive exn :=
| ValidationError (name baseDataPath : string) (violations : list Violation)
| Thrown (message : string).

Inductive Result (A : Type) :=
| Ok (a : A)
| Throw (e : exn).
Arguments Ok {A} a.
Arguments Throw {A} e.

Definition is_throw {A} (r : Result A) : bool :=
  match r with Ok _ => false | Throw _ => true end.

(** The calls the loader makes to code that is not its own. *)
Inductive Call :=
| CInterpolateName (name context : string) (content : Buffer)
| COutputPath (url resourcePath context : string)
| CPublicPath (url resourcePath context : string)
| CPostTransformPublicPath (publicPath : string)
| CEmitFile (outputPath : string) (content : Buffer).

Record Event := { ev_call : Call; ev_threw : bool }.

Definition is_emit (e : Event) : bool :=
  match ev_call e with CEmitFile _ _ => true | _ => false end.

Definition is_user_call (e : Event) : bool :=
  match ev_call e with
  | COutputPath _ _ _ | CPublicPath _ _ _ | CPostTransformPublicPath _ => true
  | _ => false
  end.

(** The arguments of every call to [this.emitFile], in order. *)
Fixpoint emitted (t : list Event) : list (string * Buffer) :=
  match t with
  | [] => []
  | e :: rest =>
      match ev_call e with
      | CEmitFile p c => (p, c) :: emitted rest
      | _ => emitted rest
      end
  end.

Section Loader.

(** [U] is whatever the functions written by the user can read and
    change (they are closures); [H] is the state of the host, which
    holds the files emitted so far. *)
Context {U H : Type}.

(** A function of the options, called with strings. *)
Definition callback : Type := list string → U → Result string * U.

Inductive value :=
| VNull
| VBool (b : bool)
| VNumber (n : Z)
| VString (s : string)
| VRegExp (source flags : string)
| VFunction (f : callback).

(** The options object is a [gmap string value]; a property that is
    missing reads as [undefined]. *)

(** JavaScript's ToBoolean on the value of a property. *)
Definition truthy (v : option value) : bool :=
  match v with
  | None | Some VNull => false
  | Some (VBool b) => b
  | Some (VNumber n) => negb (n =? 0)%Z
  | Some (VString s) => negb (Str.is_empty s)
  | Some (VRegExp _ _) | Some (VFunction _) => true
  end.

(** *** schema-utils *)

Record Schema := {
  properties : list (string * list jstype);
  additionalProperties : bool
}.

Definition has_type (v : value) (t : jstype) : bool :=
  match t, v with
  | TString, VString _ => true
  | TBoolean, VBool _ => true
  | TFunction, VFunction _ => true
  | TRegExp, VRegExp _ _ => true
  | _, _ => false
  end.

Fixpoint assoc {A} (k : string) (l : list (string * A)) : option A :=
  match l with
  | [] => None
  | (k', a) :: rest => if String.eqb k k' then Some a else assoc k rest
  end.

Definition check_property (sch : Schema) (kv : string * value) : option Violation :=
  match assoc kv.1 (properties sch) with
  | None =>
      if additionalProperties sch then None else Some (UnknownProperty kv.1)
  | Some types =>
      if existsb (has_type kv.2) types then None
      else Some (WrongType kv.1 types)
  end.

Definition violations (sch : Schema) (options : gmap string value) : list Violation :=
  omap (check_property sch) (map_to_list options).

(** Modelled from the spec: [options.json] and the validator of
    schema-utils are not among the sources.  The table is the schema
    of sections 4.1 and 6 of the specification: eight optional
    properties with the types listed there and no other key. *)
Definition schema : Schema := {|
  properties :=
    [ ("context", [TString]);
      ("name", [TString]);
      ("outputPath", [TString; TFunction]);
      ("publicPath", [TString; TFunction]);
      ("postTransformPublicPath", [TFunction]);
      ("emitFile", [TBoolean]);
      ("esModule", [TBoolean]);
      ("regExp", [TString; TRegExp]) ];
  additionalProperties := false
|}.

(** *** The loader context and loader-utils *)

Record LoaderContext := {
  query : option (gmap string value);
  rootContext : string;
  resourcePath : string;
  emitFile : string → Buffer → H → Result unit * H
}.

Record InterpolateOptions := {
  io_context : string;
  io_content : Buffer;
  io_regExp : option value
}.

(** [loaderUtils.interpolateName]: the name is worked out by the
    library from the loader context, the template and the content;
    nothing about it is fixed here. *)
Variable interpolateName :
  LoaderContext → string → InterpolateOptions → Result string.

Definition getOptions (this : LoaderContext) : option (gmap string value) :=
  query this.

(** *** State, errors and trace *)

Record State := { user : U; host : H }.

Record Outcome (A : Type) := {
  result : Result A;
  final : State;
  trace : list Event
}.
Arguments result {A} o.
Arguments final {A} o.
Arguments trace {A} o.

Definition M (A : Type) : Type := State → Outcome A.

Definition ret {A} (a : A) : M A :=
  λ s, {| result := Ok a; final := s; trace := [] |}.

Definition throw {A} (e : exn) : M A :=
  λ s, {| result := Throw e; final := s; trace := [] |}.

Definition bind {A B} (m : M A) (k : A → M B) : M B :=
  λ s,
    let o := m s in
    match result o with
    | Ok a =>
        let o' := k a (final o) in
        {| result := result o'; final := final o'; trace := trace o ++ trace o' |}
    | Throw e => {| result := Throw e; final := final o; trace := trace o |}
    end.

Definition lift {A} (r : Result A) : M A :=
  λ s, {| result := r; final := s; trace := [] |}.

(** A call to a library function that has no state. *)
Definition call_pure (c : Call) (r : Result string) : M string :=
  λ s, {| result := r; final := s;
          trace := [ {| ev_call := c; ev_threw := is_throw r |} ] |}.

(** A call to a function of the user: it sees and changes [U] only. *)
Definition call_user (c : Call) (f : U → Result string * U) : M string :=
  λ s,
    let ru := f (user s) in
    {| result := ru.1;
       final := {| user := ru.2; host := host s |};
       trace := [ {| ev_call := c; ev_threw := is_throw ru.1 |} ] |}.

(** A call to the host: it sees and changes [H] only. *)
Definition call_host (c : Call) (f : H → Result unit * H) : M unit :=
  λ s,
    let rh := f (host s) in
    {| result := rh.1;
       final := {| user := user s; host := rh.2 |};
       trace := [ {| ev_call := c; ev_threw := is_throw rh.1 |} ] |}.

Notation "x <- m ;; k" := (bind m (λ x, k))
  (at level 100, m at next level, right associativity).
Notation "m ;;; k" := (bind m (λ _, k))
  (at level 100, right associativity).

(** [validateOptions(schema, options, {name, baseDataPath})] *)
Definition validateOptions (sch : Schema) (options : gmap string value)
    (name baseDataPath : string) : M unit :=
  match violations sch options with
  | [] => ret tt
  | vs => throw (ValidationError name baseDataPath vs)
  end.

(** *** The loader, block by block *)

(** [v || dflt] for a property that the schema declares a string: the
    empty string is falsy.  The validator has already rejected every
    other shape by the time this is read. *)
Definition string_or (v : option value) (dflt : string) : string :=
  match v with
  | Some (VString s) => if Str.is_empty s then dflt else s
  | _ => dflt
  end.

(** [options.context || this.rootContext] *)
Definition resolveContext (options : gmap string value) (this : LoaderContext)
    : string :=
  string_or (options !! "context") (rootContext this).

(** [options.name || '[contenthash].[ext]'] *)
Definition nameTemplate (options : gmap string value) : string :=
  string_or (options !! "name") "[contenthash].[ext]".

(** Lines 32 to 40: the call to [loaderUtils.interpolateName]. *)
Definition resolveName (options : gmap string value) (this : LoaderContext)
    (context : string) (content : Buffer) : M string :=
  call_pure
    (CInterpolateName (nameTemplate options) context content)
    (interpolateName this (nameTemplate options)
       {| io_context := context;
          io_content := content;
          io_regExp := options !! "regExp" |}).

(** Lines 43 to 53: [outputPath] starts as [url]; a truthy
    [options.outputPath] replaces it, by a call when it is a function
    and by [path.posix.join] otherwise. *)
Definition resolveOutputPath (options : gmap string value)
    (this : LoaderContext) (url context : string) : M string :=
  match options !! "outputPath" with
  | Some (VFunction f) =>
      call_user (COutputPath url (resourcePath this) context)
                (f [url; resourcePath this; context])
  | Some (VString dir) =>
      if Str.is_empty dir then ret url else ret (Posix.join dir url)
  | _ => ret url
  end.

(** Line 59. *)
Definition defaultPublicPath (outputPath : string) : string :=
  "__webpack_public_path__ + " ++ Str.JSON_stringify outputPath.

(** Lines 66 to 70: the string is made to end with a slash and [url]
    is appended. *)
Definition prefixed (publicPath url : string) : string :=
  (if Str.endsWith publicPath "/" then publicPath else publicPath ++ "/")
  ++ url.

(** Lines 59 to 74: a truthy [options.publicPath] replaces the default
    expression; whichever of its two branches ran, the result goes
    through [JSON.stringify] on line 73. *)
Definition resolvePublicPath (options : gmap string value)
    (this : LoaderContext) (url context outputPath : string) : M string :=
  match options !! "publicPath" with
  | Some (VFunction f) =>
      p <- call_user (CPublicPath url (resourcePath this) context)
                     (f [url; resourcePath this; context]) ;;
      ret (Str.JSON_stringify p)
  | Some (VString prefix) =>
      if Str.is_empty prefix then ret (defaultPublicPath outputPath)
      else ret (Str.JSON_stringify (prefixed prefix url))
  | _ => ret (defaultPublicPath outputPath)
  end.

(** Lines 79 to 81. *)
Definition postTransformPublicPath (options : gmap string value)
    (publicPath : string) : M string :=
  match options !! "postTransformPublicPath" with
  | Some (VFunction f) =>
      call_user (CPostTransformPublicPath publicPath) (f [publicPath])
  | _ => ret publicPath
  end.

(** [typeof options.emitFile === 'undefined' || options.emitFile] *)
Definition shouldEmit (options : gmap string value) : bool :=
  match options !! "emitFile" with
  | None => true
  | v => truthy v
  end.

(** Lines 84 to 87. *)
Definition emit (options : gmap string value) (this : LoaderContext)
    (outputPath : string) (content : Buffer) : M unit :=
  if shouldEmit options then
    call_host (CEmitFile outputPath content) (emitFile this outputPath content)
  else ret tt.

(** Lines 89 and 90. *)
Definition esModule (options : gmap string value) : bool :=
  match options !! "esModule" with
  | None => true
  | v => truthy v
  end.

(** Line 92. *)
Definition moduleSource (options : gmap string value) (publicPath : string)
    : string :=
  (if esModule options then "export default" else "module.exports =")
  ++ " " ++ publicPath ++ ";".

(** [loaderUtils.getOptions(this) || {}] *)
Definition optionsOf (this : LoaderContext) : gmap string value :=
  default ∅ (getOptions this).

(** The locals of [loader] once the paths are known. *)
Record Locals := {
  l_context : string;
  l_url : string;
  l_outputPath : string;
  l_publicPath : string
}.

(** Lines 16 to 81 of [loader]: validation, the name, the output path
    and the public path. *)
Definition resolve (this : LoaderContext) (content : Buffer) : M Locals :=
  let options := optionsOf this in
  validateOptions schema options "File Loader" "options" ;;;
  let context := resolveContext options this in
  url <- resolveName options this context content ;;
  outputPath <- resolveOutputPath options this url context ;;
  publicPath <- resolvePublicPath options this url context outputPath ;;
  publicPath <- postTransformPublicPath options publicPath ;;
  ret {| l_context := context;
         l_url := url;
         l_outputPath := outputPath;
         l_publicPath := publicPath |}.

(** [export const raw = true]: the content reaches the loader as a
    buffer, not as a string. *)
Definition raw : bool := true.

(** [loader(content)], called with [this]: the paths, then lines 84
    to 92. *)
Definition loader (this : LoaderContext) (content : Buffer) : M string :=
  l <- resolve this content ;;
  emit (optionsOf this) this (l_outputPath l) content ;;;
  ret (moduleSource (optionsOf this) (l_publicPath l)).

End Loader.

Arguments value : clear implicits.
Arguments callback : clear implicits.
Arguments LoaderContext : clear implicits.
Arguments InterpolateOptions : clear implicits.
Arguments State : clear implicits.
Arguments Outcome : clear implicits.
Arguments M : clear implicits.
Arguments result {U H A} o.
Arguments final {U H A} o.
Arguments trace {U H A} o.

(** ** A small host, for running the loader on examples *)

Module Demo.

(** The host keeps the emitted files in a list; the functions of the
    user count how often they were called. *)
Definition Files : Type := list (string * Buffer).

Definition appendFile (path : string) (content : Buffer) (files : Files)
    : Result unit * Files :=
  (Ok tt, (files ++ [(path, content)])%list).

(** A template without placeholders is the name; the default template
    gives the name of the specification's examples. *)
Definition interpolateName (this : LoaderContext nat Files) (name : string)
    (o : InterpolateOptions nat) : Result string :=
  if String.eqb name "[contenthash].[ext]" then Ok "abc123.png" else Ok name.

Definition this (options : gmap string (value nat)) : LoaderContext nat Files :=
  {| query := Some options;
     rootContext := "/project";
     resourcePath := "/project/src/logo.png";
     emitFile := appendFile |}.

Definition start : State nat Files := {| user := 0; host := [] |}.

Definition content : Buffer := [Byte.x89; Byte.x50; Byte.x4e; Byte.x47].

(** [(url) => '/cdn/' + url] *)
Definition cdn : callback nat :=
  λ args u, (Ok ("/cdn/" ++ nth 0 args ""), S u).

(** [(url) => 'static/' + url] *)
Definition static : callback nat :=
  λ args u, (Ok ("static/" ++ nth 0 args ""), S u).

(** [(p) => '(' + p + ')'] *)
Definition parens : callback nat :=
  λ args u, (Ok ("(" ++ nth 0 args "" ++ ")"), S u).

(** [() => { throw new Error('boom') }] *)
Definition boom : callback nat :=
  λ args u, (Throw (Thrown "boom"), S u).

(** [() => 'v' + (calls++)], for the first two calls. *)
Definition fickle : callback nat :=
  λ args u, (Ok (match u with 0 => "v0" | _ => "v1" end), S u).

Definition quoted (s : string) : string := Str.dquote ++ s ++ Str.dquote.

(** The loader contexts of the examples, by their options. *)

(** No options at all. *)
Definition plain : LoaderContext nat Files :=
  this ∅.

(** [{ context: /custom }] *)
Definition custom_context : LoaderContext nat Files :=
  this {[ "context" := VString "/custom" ]}.

(** [{ context: (the empty string) }] *)
Definition empty_context : LoaderContext nat Files :=
  this {[ "context" := VString "" ]}.

(** [{ outputPath: dist }] *)
Definition into_dist : LoaderContext nat Files :=
  this {[ "outputPath" := VString "dist" ]}.

(** [{ outputPath: (the empty string), name: ./logo.png }] *)
Definition empty_outputPath : LoaderContext nat Files :=
  this {[ "outputPath" := VString ""; "name" := VString "./logo.png" ]}.

(** [{ publicPath: cdn }] *)
Definition via_cdn : LoaderContext nat Files :=
  this {[ "publicPath" := VFunction cdn ]}.

(** [{ publicPath: https://cdn.example.com, outputPath: dist }] *)
Definition cdn_prefix : LoaderContext nat Files :=
  this {[ "publicPath" := VString "https://cdn.example.com";
     "outputPath" := VString "dist" ]}.

(** [{ publicPath: (the empty string) }] *)
Definition empty_publicPath : LoaderContext nat Files :=
  this {[ "publicPath" := VString "" ]}.

(** [{ publicPath: cdn, postTransformPublicPath: parens }] *)
Definition transformed : LoaderContext nat Files :=
  this {[ "publicPath" := VFunction cdn;
     "postTransformPublicPath" := VFunction parens ]}.

(** [{ emitFile: false, outputPath: dist }] *)
Definition no_emit : LoaderContext nat Files :=
  this {[ "emitFile" := VBool false; "outputPath" := VString "dist" ]}.

(** [{ outputPath: fickle }] *)
Definition versioned : LoaderContext nat Files :=
  this {[ "outputPath" := VFunction fickle ]}.

(** [{ name: a(line feed)b.png, publicPath: https://cdn.example.com }] *)
Definition odd_name : LoaderContext nat Files :=
  this {[ "name" := VString ("a" ++ String (ascii_of_N 10) "b.png");
     "publicPath" := VString "https://cdn.example.com" ]}.

(** [{ outputPath: static, publicPath: cdn }] *)
Definition both_functions : LoaderContext nat Files :=
  this {[ "outputPath" := VFunction static; "publicPath" := VFunction cdn ]}.

(** [{ publicPath: https://cdn.example.com/ }] *)
Definition cdn_prefix_slash : gmap string (value nat) :=
  {[ "publicPath" := VString "https://cdn.example.com/" ]}.

(** [{ outputPath: dist/ }] *)
Definition into_dist_slash : gmap string (value nat) :=
  {[ "outputPath" := VString "dist/" ]}.

(** [{ esModule: false }] *)
Definition commonjs : LoaderContext nat Files :=
  this {[ "esModule" := VBool false ]}.

(** No query at all: [getOptions] gives [null]. *)
Definition bare : LoaderContext nat Files :=
  {| query := None;
     rootContext := "/project";
     resourcePath := "/project/src/logo.png";
     emitFile := appendFile |}.

(** A host whose [emitFile] throws. *)
Definition read_only : LoaderContext nat Files :=
  {| query := None;
     rootContext := "/project";
     resourcePath := "/project/src/logo.png";
     emitFile := λ _ _ files, (Throw (Thrown "read-only"), files) |}.

(** A library whose [interpolateName] throws. *)
Definition failing_interpolateName (c : LoaderContext nat Files)
    (name : string) (o : InterpolateOptions nat) : Result string :=
  Throw (Thrown "unknown hash").

(** [{ outputPath: boom }] *)
Definition throwing_early : LoaderContext nat Files :=
  this {[ "outputPath" := VFunction boom ]}.

(** [{ postTransformPublicPath: boom }] *)
Definition throwing_last : LoaderContext nat Files :=
  this {[ "postTransformPublicPath" := VFunction boom ]}.

(** [{ foo: 1 }] *)
Definition unknown_key : LoaderContext nat Files :=
  this {[ "foo" := VNumber 1 ]}.

(** [{ publicPath: boom }] *)
Definition throwing : LoaderContext nat Files :=
  this {[ "publicPath" := VFunction boom ]}.

(** [{ outputPath: static, publicPath: boom }] *)
Definition throwing_late : LoaderContext nat Files :=
  this {[ "outputPath" := VFunction static;
     "publicPath" := VFunction boom ]}.

(** One run of the loader, and of its first part, on the small host. *)
Definition run (c : LoaderContext nat Files) : Outcome nat Files string :=
  loader interpolateName c content start.

Definition paths (c : LoaderContext nat Files) : Outcome nat Files Locals :=
  resolve interpolateName c content start.

(** What [interpolateName] is called with when nothing is configured. *)
Definition named : Event :=
  {| ev_call := CInterpolateName "[contenthash].[ext]" "/project" content;
     ev_threw := false |}.

End Demo.

(** ** What is proved about computations *)

Definition threw (e : Event) : Prop := ev_threw e = true.

(** The computation leaves the host as it found it and never calls
    [this.emitFile]. *)
Definition host_untouched {U H A} (m : M U H A) : Prop :=
  ∀ s, host (final (m s)) = host s ∧ emitted (trace (m s)) = [].

(** A call that throws ends the computation with a throw. *)
Definition aborts_on_throw {U H A} (m : M U H A) : Prop :=
  ∀ s, Exists threw (trace (m s)) → is_throw (result (m s)) = true.

(** The computation throws only what one of its calls threw. *)
Definition throws_by_call {U H A} (m : M U H A) : Prop :=
  ∀ s e, result (m s) = Throw e → Exists threw (trace (m s)).

(** Result and trace do not depend on the state the computation
    starts from. *)
Definition stateless {U H A} (m : M U H A) : Prop :=
  ∀ s s', result (m s) = result (m s') ∧ trace (m s) = trace (m s').

(** A function of the user is deterministic when what it returns or
    throws depends on its arguments only. *)
Definition deterministic {U} (f : callback U) : Prop :=
  ∀ args u u', (f args u).1 = (f args u').1.

Definition deterministic_options {U} (options : gmap string (value U)) : Prop :=
  ∀ k f, options !! k = Some (VFunction f) → deterministic f.

Definition deterministic_host {U H} (this : LoaderContext U H) : Prop :=
  ∀ path content h h',
    (emitFile this path content h).1 = (emitFile this path content h').1.

(** The place of a call in the body of [loader]: the line of the
    source it is made on decides it. *)
Definition rank (e : Event) : nat :=
  match ev_call e with
  | CInterpolateName _ _ _ => 0
  | COutputPath _ _ _ => 1
  | CPublicPath _ _ _ => 2
  | CPostTransformPublicPath _ => 3
  | CEmitFile _ _ => 4
  end.

(** The calls of the computation have places from [lo] up to [hi]
    and are made in increasing order of place. *)
Definition ordered {U H A} (lo hi : nat) (m : M U H A) : Prop :=
  ∀ s,
    StronglySorted lt (rank <$> trace (m s)) ∧
    Forall (λ e, lo ≤ rank e < hi) (trace (m s)).

Definition returned (e : Event) : Prop := ev_threw e = false.

(** Only the last call of the computation may have thrown, and none
    has when the computation returns. *)
Definition throw_ends {U H A} (m : M U H A) : Prop :=
  ∀ s,
    Forall returned (removelast (trace (m s))) ∧
    (is_throw (result (m s)) = false → Forall returned (trace (m s))).

(** The value of a hexadecimal digit written in lower case. *)
Definition hex_value (a : ascii) : N :=
  let n := N_of_ascii a in
  if (n <? 58)%N then (n - 48)%N else (n - 87)%N.

(** Reads back the first character of the body of a string literal:
    the inverse of [Str.json_escape], used to show that quoting loses
    nothing.  A bare quote, which ends the literal, reads as nothing. *)
Definition json_unescape (s : string) : option (ascii * string) :=
  match s with
  | EmptyString => None
  | String c r =>
      if (N_of_ascii c =? 34)%N then None
      else if (N_of_ascii c =? 92)%N then
        match r with
        | EmptyString => None
        | String e r' =>
            let n := N_of_ascii e in
            if (n =? 34)%N then Some (e, r')
            else if (n =? 92)%N then Some (e, r')
            else if (n =? 98)%N then Some (ascii_of_N 8, r')
            else if (n =? 116)%N then Some (ascii_of_N 9, r')
            else if (n =? 110)%N then Some (ascii_of_N 10, r')
            else if (n =? 102)%N then Some (ascii_of_N 12, r')
            else if (n =? 114)%N then Some (ascii_of_N 13, r')
            else if (n =? 117)%N then
              match r' with
              | String _ (String _ (String h (String l r''))) =>
                  Some (ascii_of_N (16 * hex_value h + hex_value l), r'')
              | _ => None
              end
            else None
        end
      else Some (c, r)
  end.

(** A byte that is none of the control characters U+0000 to U+001F
    (line feed, carriage return, tab and the like). *)
Definition not_c0_control (a : ascii) : Prop :=
  (32 <=? N_of_ascii a)%N = true.

(** The computation runs no code of the user. *)
Definition user_untouched {U H A} (m : M U H A) : Prop :=
  ∀ s,
    user (final (m s)) = user s ∧
    Forall (λ ev, is_user_call ev = false) (trace (m s)).

(** ** The monad *)

Section Monad.

Context {U H : Type}.

Lemma bind_ok {A B} (m : M U H A) (k : A → M U H B) s a :
  result (m s) = Ok a →
  bind m k s =
    {| result := result (k a (final (m s)));
       final := final (k a (final (m s)));
       trace := trace (m s) ++ trace (k a (final (m s))) |}.
Proof. intros E. unfold bind. now rewrite E. Qed.

Lemma bind_throw {A B} (m : M U H A) (k : A → M U H B) s e :
  result (m s) = Throw e →
  bind m k s = {| result := Throw e; final := final (m s); trace := trace (m s) |}.
Proof. intros E. unfold bind. now rewrite E. Qed.

Lemma emitted_app (t t' : list Event) :
  emitted (t ++ t') = (emitted t ++ emitted t')%list.
Proof.
  induction t as [|e t IH]; [reflexivity|].
  cbn. destruct (ev_call e); cbn; now rewrite ?IH.
Qed.

(** *** [host_untouched] *)

Lemma host_untouched_ret {A} (a : A) : host_untouched (ret (U:=U) (H:=H) a).
Proof. now intros s. Qed.

Lemma host_untouched_throw {A} e : host_untouched (throw (U:=U) (H:=H) (A:=A) e).
Proof. now intros s. Qed.

Lemma host_untouched_call_pure c r :
  is_emit {| ev_call := c; ev_threw := false |} = false →
  host_untouched (call_pure (U:=U) (H:=H) c r).
Proof. intros E s. split; [reflexivity|]. cbn. now destruct c. Qed.

Lemma host_untouched_call_user c (f : U → Result string * U) :
  is_emit {| ev_call := c; ev_threw := false |} = false →
  host_untouched (call_user (H:=H) c f).
Proof. intros E s. split; [reflexivity|]. cbn. now destruct c. Qed.

Lemma host_untouched_bind {A B} (m : M U H A) (k : A → M U H B) :
  host_untouched m → (∀ a, host_untouched (k a)) → host_untouched (bind m k).
Proof.
  intros Hm Hk s. destruct (Hm s) as [Hh He].
  destruct (result (m s)) as [a|e] eqn:E.
  - rewrite (bind_ok _ _ _ _ E). cbn.
    destruct (Hk a (final (m s))) as [Hh' He'].
    rewrite emitted_app, He, He', Hh', Hh. now split.
  - rewrite (bind_throw _ _ _ _ E). cbn. now split.
Qed.

(** *** [aborts_on_throw] *)

Lemma aborts_ret {A} (a : A) : aborts_on_throw (ret (U:=U) (H:=H) a).
Proof. intros s X. cbn in X. inversion X. Qed.

Lemma aborts_throw {A} e : aborts_on_throw (throw (U:=U) (H:=H) (A:=A) e).
Proof. now intros s. Qed.

Lemma Exists_threw_one c b : Exists threw [ {| ev_call := c; ev_threw := b |} ] → b = true.
Proof.
  intros X. inversion X as [? ? T|? ? T]; [exact T | inversion T].
Qed.

Lemma aborts_call_pure c r : aborts_on_throw (call_pure (U:=U) (H:=H) c r).
Proof. intros s X. cbn in *. now apply Exists_threw_one in X. Qed.

Lemma aborts_call_user c (f : U → Result string * U) :
  aborts_on_throw (call_user (H:=H) c f).
Proof. intros s X. cbn in *. now apply Exists_threw_one in X. Qed.

Lemma aborts_call_host c (f : H → Result unit * H) :
  aborts_on_throw (call_host (U:=U) c f).
Proof. intros s X. cbn in *. now apply Exists_threw_one in X. Qed.

Lemma aborts_bind {A B} (m : M U H A) (k : A → M U H B) :
  aborts_on_throw m → (∀ a, aborts_on_throw (k a)) → aborts_on_throw (bind m k).
Proof.
  intros Hm Hk s. specialize (Hm s).
  destruct (result (m s)) as [a|e] eqn:E.
  - rewrite (bind_ok _ _ _ _ E). cbn. intros X.
    apply Exists_app in X as [X|X].
    + now apply Hm in X.
    + now apply Hk.
  - rewrite (bind_throw _ _ _ _ E). now cbn.
Qed.

(** *** [throws_by_call] *)

Lemma blame_ret {A} (a : A) : throws_by_call (ret (U:=U) (H:=H) a).
Proof. now intros s e. Qed.

Lemma blame_one c {A} (r : Result A) e :
  r = Throw e → Exists threw [ {| ev_call := c; ev_threw := is_throw r |} ].
Proof. intros ->. now constructor. Qed.

Lemma blame_call_pure c r : throws_by_call (call_pure (U:=U) (H:=H) c r).
Proof. intros s e E. cbn in *. eapply blame_one, E. Qed.

Lemma blame_call_user c (f : U → Result string * U) :
  throws_by_call (call_user (H:=H) c f).
Proof. intros s e E. cbn in *. eapply blame_one, E. Qed.

Lemma blame_call_host c (f : H → Result unit * H) :
  throws_by_call (call_host (U:=U) c f).
Proof. intros s e E. cbn in *. eapply blame_one, E. Qed.

Lemma blame_bind {A B} (m : M U H A) (k : A → M U H B) :
  throws_by_call m → (∀ a, throws_by_call (k a)) → throws_by_call (bind m k).
Proof.
  intros Hm Hk s e.
  destruct (result (m s)) as [a|e'] eqn:E.
  - rewrite (bind_ok _ _ _ _ E). cbn. intros X.
    apply Exists_app. right. eapply Hk, X.
  - rewrite (bind_throw _ _ _ _ E). cbn. intros X.
    eapply Hm, E.
Qed.

(** *** [stateless] *)

Lemma stateless_ret {A} (a : A) : stateless (ret (U:=U) (H:=H) a).
Proof. now intros s s'. Qed.

Lemma stateless_throw {A} e : stateless (throw (U:=U) (H:=H) (A:=A) e).
Proof. now intros s s'. Qed.

Lemma stateless_call_pure c r : stateless (call_pure (U:=U) (H:=H) c r).
Proof. now intros s s'. Qed.

Lemma stateless_call_user c (f : U → Result string * U) :
  (∀ u u', (f u).1 = (f u').1) → stateless (call_user (H:=H) c f).
Proof. intros D s s'. cbn. now rewrite (D (user s) (user s')). Qed.

Lemma stateless_call_host c (f : H → Result unit * H) :
  (∀ h h', (f h).1 = (f h').1) → stateless (call_host (U:=U) c f).
Proof. intros D s s'. cbn. now rewrite (D (host s) (host s')). Qed.

Lemma stateless_bind {A B} (m : M U H A) (k : A → M U H B) :
  stateless m → (∀ a, stateless (k a)) → stateless (bind m k).
Proof.
  intros Hm Hk s s'. destruct (Hm s s') as [Hr Ht].
  destruct (result (m s)) as [a|e] eqn:E.
  - rewrite (bind_ok _ _ s a E), (bind_ok _ _ s' a) by congruence. cbn.
    destruct (Hk a (final (m s)) (final (m s'))) as [Hr' Ht'].
    now rewrite Hr', Ht', Ht.
  - rewrite (bind_throw _ _ s e E), (bind_throw _ _ s' e) by congruence.
    cbn. now rewrite Ht.
Qed.

End Monad.

(** ** The blocks of the loader *)

Create HintDb loader.

#[local] Hint Resolve
  host_untouched_ret host_untouched_throw host_untouched_call_pure
  host_untouched_call_user host_untouched_bind
  aborts_ret aborts_throw aborts_call_pure aborts_call_user aborts_call_host
  aborts_bind
  blame_ret blame_call_pure blame_call_user blame_call_host blame_bind
  stateless_ret stateless_throw stateless_call_pure stateless_bind
  : loader.

(** Splits a block along its binds and case distinctions and closes
    the leaves with the lemmas of the monad. *)
Ltac by_blocks bind_lemma :=
  repeat (first
    [ apply bind_lemma
    | match goal with |- ∀ _, _ => intro end
    | case_match ]);
  auto with loader.

Section Blocks.

Context {U H : Type}.
Variable interpolateName :
  LoaderContext U H → string → InterpolateOptions U → Result string.

Implicit Types (options : gmap string (value U)) (this : LoaderContext U H).
Implicit Types (s : State U H) (content : Buffer).

(** *** What a validated options object looks like *)

Lemma validated_lookup (sch : Schema) options k v :
  violations sch options = [] →
  options !! k = Some v →
  check_property sch (k, v) = None.
Proof.
  intros V L.
  destruct (check_property sch (k, v)) as [x|] eqn:C; [|reflexivity].
  assert (X : x ∈ violations sch options).
  { apply list_elem_of_omap. exists (k, v). split; [|exact C].
    now apply elem_of_map_to_list. }
  rewrite V in X. inversion X.
Qed.

Lemma validated_string options k v :
  assoc k (properties schema) = Some [TString] →
  violations schema options = [] →
  options !! k = Some v →
  ∃ str, v = VString str.
Proof.
  intros A V L. pose proof (validated_lookup _ _ _ _ V L) as C.
  unfold check_property in C. cbn [fst snd] in C. rewrite A in C.
  destruct v; cbn in C; try discriminate. now eexists.
Qed.

Lemma validated_boolean options k v :
  assoc k (properties schema) = Some [TBoolean] →
  violations schema options = [] →
  options !! k = Some v →
  ∃ b, v = VBool b.
Proof.
  intros A V L. pose proof (validated_lookup _ _ _ _ V L) as C.
  unfold check_property in C. cbn [fst snd] in C. rewrite A in C.
  destruct v; cbn in C; try discriminate. now eexists.
Qed.

Lemma validateOptions_ok options name path s :
  violations schema options = [] →
  validateOptions schema options name path s = ret tt s.
Proof. intros V. unfold validateOptions. now rewrite V. Qed.

Lemma validateOptions_rejects options name path s :
  violations schema options ≠ [] →
  validateOptions schema options name path s =
    throw (ValidationError name path (violations schema options)) s.
Proof.
  intros V. unfold validateOptions.
  destruct (violations schema options); [contradiction|reflexivity].
Qed.

(** *** The host is left alone until the file is emitted *)

Lemma host_untouched_resolve this content :
  host_untouched (resolve interpolateName this content).
Proof.
  unfold resolve, validateOptions, resolveName, resolveOutputPath,
    resolvePublicPath, postTransformPublicPath.
  by_blocks @host_untouched_bind.
Qed.

Lemma aborts_resolve this content :
  aborts_on_throw (resolve interpolateName this content).
Proof.
  unfold resolve, validateOptions, resolveName, resolveOutputPath,
    resolvePublicPath, postTransformPublicPath.
  by_blocks @aborts_bind.
Qed.

Lemma blame_loader this content :
  violations schema (optionsOf this) = [] →
  throws_by_call (loader interpolateName this content).
Proof.
  intros V.
  unfold loader, emit, resolve, validateOptions, resolveName,
    resolveOutputPath, resolvePublicPath, postTransformPublicPath.
  rewrite V. by_blocks @blame_bind.
Qed.

(** The part of [loader] after the paths are known: at most one call,
    to [this.emitFile]. *)
Lemma emit_trace options this outputPath content s :
  trace (emit options this outputPath content s) =
    if shouldEmit options then
      [ {| ev_call := CEmitFile outputPath content;
           ev_threw :=
             is_throw (emitFile this outputPath content (host s)).1 |} ]
    else [].
Proof. unfold emit. now destruct (shouldEmit options). Qed.

Lemma loader_after_resolve this content s l :
  result (resolve interpolateName this content s) = Ok l →
  let r := resolve interpolateName this content s in
  let e := emit (optionsOf this) this (l_outputPath l) content (final r) in
  loader interpolateName this content s =
    {| result :=
         match result e with
         | Ok _ => Ok (moduleSource (optionsOf this) (l_publicPath l))
         | Throw x => Throw x
         end;
       final := final e;
       trace := trace r ++ trace e |}.
Proof.
  intros E r e. subst r e. unfold loader. rewrite (bind_ok _ _ _ _ E).
  set (st := final (resolve interpolateName this content s)).
  destruct (result (emit (optionsOf this) this (l_outputPath l) content st))
    as [u|x] eqn:R.
  - rewrite (bind_ok _ _ _ _ R). cbn. now rewrite app_nil_r.
  - now rewrite (bind_throw _ _ _ _ R).
Qed.

Lemma loader_resolve_throws this content s x :
  result (resolve interpolateName this content s) = Throw x →
  loader interpolateName this content s =
    {| result := Throw x;
       final := final (resolve interpolateName this content s);
       trace := trace (resolve interpolateName this content s) |}.
Proof. intros E. unfold loader. now rewrite (bind_throw _ _ _ _ E). Qed.

Lemma resolveName_ok options this context content s url :
  result (resolveName interpolateName options this context content s) = Ok url →
  resolveName interpolateName options this context content s =
    {| result := Ok url;
       final := s;
       trace := [ {| ev_call :=
                       CInterpolateName (nameTemplate options) context content;
                     ev_threw := false |} ] |}.
Proof. unfold resolveName, call_pure. cbn. now intros ->. Qed.

(** [resolve] once validation has passed and the name is known: the
    three blocks that follow run one after the other. *)
Lemma resolve_chain this content s url outputPath publicPath :
  let options := optionsOf this in
  let context := resolveContext options this in
  violations schema options = [] →
  result (resolveName interpolateName options this context content s) = Ok url →
  let o1 := resolveOutputPath options this url context s in
  result o1 = Ok outputPath →
  let o2 := resolvePublicPath options this url context outputPath (final o1) in
  result o2 = Ok publicPath →
  let o3 := postTransformPublicPath options publicPath (final o2) in
  resolve interpolateName this content s =
    {| result :=
         match result o3 with
         | Ok publicPath' =>
             Ok {| l_context := context;
                   l_url := url;
                   l_outputPath := outputPath;
                   l_publicPath := publicPath' |}
         | Throw x => Throw x
         end;
       final := final o3;
       trace :=
         {| ev_call := CInterpolateName (nameTemplate options) context content;
            ev_threw := false |} :: trace o1 ++ trace o2 ++ trace o3 |}.
Proof.
  intros options context V N o1 R1 o2 R2 o3. subst o1 o2 o3.
  unfold resolve. fold options. fold context.
  rewrite (bind_ok _ _ s tt) by now rewrite validateOptions_ok.
  rewrite validateOptions_ok by assumption. cbn [ret final result trace].
  rewrite (bind_ok _ _ s url N).
  rewrite (resolveName_ok _ _ _ _ _ _ N). cbn [final result trace].
  rewrite (bind_ok _ _ _ _ R1), (bind_ok _ _ _ _ R2).
  cbn [final result trace].
  destruct (result (postTransformPublicPath options publicPath _))
    as [p|x] eqn:R3.
  - rewrite (bind_ok _ _ _ _ R3). cbn. now rewrite app_nil_r.
  - now rewrite (bind_throw _ _ _ _ R3).
Qed.

(** Every run of [resolve] that returns went through the chain. *)
Lemma resolve_ok_inv this content s l :
  let options := optionsOf this in
  let context := resolveContext options this in
  result (resolve interpolateName this content s) = Ok l →
  violations schema options = [] ∧
  l_context l = context ∧
  result (resolveName interpolateName options this context content s)
    = Ok (l_url l) ∧
  let o1 := resolveOutputPath options this (l_url l) context s in
  result o1 = Ok (l_outputPath l) ∧
  ∃ publicPath,
    let o2 :=
      resolvePublicPath options this (l_url l) context (l_outputPath l)
        (final o1) in
    result o2 = Ok publicPath ∧
    result (postTransformPublicPath options publicPath (final o2))
      = Ok (l_publicPath l).
Proof.
  intros options context E.
  destruct (violations schema options) as [|v vs] eqn:V.
  2:{ exfalso. unfold resolve in E. fold options in E.
      erewrite bind_throw in E; [discriminate E|].
      rewrite validateOptions_rejects; [reflexivity|]. now rewrite V. }
  destruct (result (resolveName interpolateName options this context content s))
    as [url|x] eqn:N.
  2:{ exfalso. unfold resolve in E. fold options in E. fold context in E.
      rewrite (bind_ok _ _ s tt) in E by now rewrite validateOptions_ok.
      rewrite validateOptions_ok in E by assumption.
      cbn [ret final result trace] in E.
      now rewrite (bind_throw _ _ _ _ N) in E. }
  destruct (result (resolveOutputPath options this url context s))
    as [outputPath|x] eqn:R1.
  2:{ exfalso. unfold resolve in E. fold options in E. fold context in E.
      rewrite (bind_ok _ _ s tt) in E by now rewrite validateOptions_ok.
      rewrite validateOptions_ok in E by assumption.
      cbn [ret final result trace] in E.
      rewrite (bind_ok _ _ _ _ N), (resolveName_ok _ _ _ _ _ _ N) in E.
      cbn [final result trace] in E.
      now rewrite (bind_throw _ _ _ _ R1) in E. }
  destruct (result (resolvePublicPath options this url context outputPath
                      (final (resolveOutputPath options this url context s))))
    as [publicPath|x] eqn:R2.
  2:{ exfalso. unfold resolve in E. fold options in E. fold context in E.
      rewrite (bind_ok _ _ s tt) in E by now rewrite validateOptions_ok.
      rewrite validateOptions_ok in E by assumption.
      cbn [ret final result trace] in E.
      rewrite (bind_ok _ _ _ _ N), (resolveName_ok _ _ _ _ _ _ N) in E.
      cbn [final result trace] in E.
      rewrite (bind_ok _ _ _ _ R1) in E. cbn [final result trace] in E.
      now rewrite (bind_throw _ _ _ _ R2) in E. }
  rewrite (resolve_chain this content s url outputPath publicPath V N R1 R2)
    in E.
  cbn [result] in E. fold options in E. fold context in E.
  destruct (result (postTransformPublicPath options publicPath _))
    as [p|x] eqn:R3; [|discriminate E].
  injection E as <-. cbn. repeat split; try assumption.
  exists publicPath. now split.
Qed.

(** The first call of the loader, when validation has passed, is the
    one to [interpolateName]. *)
Lemma loader_first_call this content s :
  let options := optionsOf this in
  let context := resolveContext options this in
  violations schema options = [] →
  hd_error (trace (loader interpolateName this content s)) =
    Some {| ev_call := CInterpolateName (nameTemplate options) context content;
            ev_threw :=
              is_throw
                (result
                   (resolveName interpolateName options this context content s))
         |}.
Proof.
  intros options context V.
  assert (T : ∃ rest,
             trace (resolve interpolateName this content s) =
               {| ev_call :=
                    CInterpolateName (nameTemplate options) context content;
                  ev_threw :=
                    is_throw
                      (result
                         (resolveName interpolateName options this context
                            content s)) |} :: rest).
  { unfold resolve. fold options. fold context.
    rewrite (bind_ok _ _ s tt) by now rewrite validateOptions_ok.
    rewrite validateOptions_ok by assumption. cbn [ret final result trace].
    destruct (result (resolveName interpolateName options this context content s))
      as [url|x] eqn:N.
    - rewrite (bind_ok _ _ _ _ N). cbn [trace]. unfold resolveName at 1.
      cbn [call_pure trace]. unfold resolveName in N. cbn in N. rewrite N.
      cbn. eauto.
    - rewrite (bind_throw _ _ _ _ N). cbn [trace]. unfold resolveName at 1.
      cbn [call_pure trace]. unfold resolveName in N. cbn in N. rewrite N.
      cbn. eauto. }
  destruct T as [rest T].
  destruct (result (resolve interpolateName this content s)) as [l|x] eqn:E.
  - rewrite (loader_after_resolve _ _ _ _ E). cbn [trace]. now rewrite T.
  - rewrite (loader_resolve_throws _ _ _ _ E). cbn [trace]. now rewrite T.
Qed.

(** The whole loader along the chain, when nothing throws. *)
Lemma loader_chain this content s url outputPath publicPath publicPath' :
  let options := optionsOf this in
  let context := resolveContext options this in
  violations schema options = [] →
  result (resolveName interpolateName options this context content s) = Ok url →
  let o1 := resolveOutputPath options this url context s in
  result o1 = Ok outputPath →
  let o2 := resolvePublicPath options this url context outputPath (final o1) in
  result o2 = Ok publicPath →
  let o3 := postTransformPublicPath options publicPath (final o2) in
  result o3 = Ok publicPath' →
  result (emit options this outputPath content (final o3)) = Ok tt →
  result (loader interpolateName this content s) =
    Ok (moduleSource options publicPath').
Proof.
  intros options context V N o1 R1 o2 R2 o3 R3 R4.
  pose proof (resolve_chain this content s url outputPath publicPath V N R1 R2)
    as C.
  cbv zeta in C. fold options context in C. fold o1 in C. fold o2 in C.
  fold o3 in C. rewrite R3 in C.
  erewrite loader_after_resolve by (rewrite C; reflexivity).
  cbn [result l_outputPath l_publicPath]. rewrite C. cbn [final].
  fold options. now rewrite R4.
Qed.

Lemma shouldEmit_spec options :
  shouldEmit options = true ↔
  options !! "emitFile" = None ∨ truthy (options !! "emitFile") = true.
Proof.
  unfold shouldEmit. destruct (options !! "emitFile") as [v|].
  - split; [now right | now intros [?|?]].
  - split; [now left | reflexivity].
Qed.

Lemma shouldEmit_false options :
  violations schema options = [] →
  options !! "emitFile" = Some (VBool false) ↔ shouldEmit options = false.
Proof.
  intros V. unfold shouldEmit.
  destruct (options !! "emitFile") as [v|] eqn:L; [|split; discriminate].
  destruct (validated_boolean options "emitFile" v eq_refl V L) as [b ->].
  destruct b; cbn; split; congruence.
Qed.

Lemma stateless_loader this content :
  deterministic_options (optionsOf this) →
  deterministic_host this →
  stateless (resolve interpolateName this content) ∧
  stateless (loader interpolateName this content).
Proof.
  intros DO DH.
  assert (R : stateless (resolve interpolateName this content)).
  { unfold resolve, validateOptions, resolveName, resolveOutputPath,
      resolvePublicPath, postTransformPublicPath.
    by_blocks @stateless_bind;
      apply stateless_call_user; intros u u'; eapply DO; eassumption. }
  split; [exact R|].
  unfold loader, emit. apply stateless_bind; [exact R|].
  intros l. apply stateless_bind; [|auto with loader].
  destruct (shouldEmit (optionsOf this)); [|auto with loader].
  apply stateless_call_host. intros h h'. apply DH.
Qed.

(** ** The claims *)

(** C1, as amended.  When [options.publicPath] is a function, the
    public-path expression is the JSON string literal of what the call
    [options.publicPath(url, this.resourcePath, context)] returned: the
    value goes through [JSON.stringify] like the string of the other
    branch, it is not used verbatim.  With no
    [postTransformPublicPath], that literal is what the returned line
    embeds. *)
Theorem publicPath_function this content s f url outputPath returned :
  let options := optionsOf this in
  let context := resolveContext options this in
  violations schema options = [] →
  options !! "publicPath" = Some (VFunction f) →
  result (resolveName interpolateName options this context content s) = Ok url →
  let o1 := resolveOutputPath options this url context s in
  result o1 = Ok outputPath →
  let call := f [url; resourcePath this; context] (user (final o1)) in
  call.1 = Ok returned →
  let after := {| user := call.2; host := host (final o1) |} in
  resolvePublicPath options this url context outputPath (final o1) =
    {| result := Ok (Str.JSON_stringify returned);
       final := after;
       trace := [ {| ev_call := CPublicPath url (resourcePath this) context;
                     ev_threw := false |} ] |} ∧
  (options !! "postTransformPublicPath" = None →
   result (emit options this outputPath content after) = Ok tt →
   result (loader interpolateName this content s) =
     Ok ((if esModule options then "export default" else "module.exports =")
         ++ " " ++ Str.JSON_stringify returned ++ ";")).
Proof.
  intros options context V L N o1 R1 call C after.
  assert (B : resolvePublicPath options this url context outputPath (final o1) =
              {| result := Ok (Str.JSON_stringify returned);
                 final := after;
                 trace := [ {| ev_call :=
                                 CPublicPath url (resourcePath this) context;
                               ev_threw := false |} ] |}).
  { unfold resolvePublicPath. rewrite L.
    erewrite bind_ok by (cbn; exact C).
    cbn. fold call. now rewrite C. }
  split; [exact B|].
  intros P E.
  eapply (loader_chain this content s url outputPath) in V as ->; try eassumption.
  - reflexivity.
  - fold options context o1. now rewrite B.
  - fold options context o1. rewrite B. cbn [final].
    unfold postTransformPublicPath. now rewrite P.
  - fold options context o1. rewrite B. cbn [final].
    unfold postTransformPublicPath. rewrite P. exact E.
Qed.

(** C3, as amended.  When [options.publicPath] is a string that is
    not empty, the public-path expression is the JSON string literal of
    that string, given a final slash when it has none, followed by
    [url]; the output path plays no part in it.  When it is the empty
    string, it is treated as absent: the expression is the default
    one, [__webpack_public_path__] plus the literal of the output
    path.  With no [postTransformPublicPath], that expression is what
    the returned line embeds. *)
Theorem publicPath_string this content s prefix url outputPath :
  let options := optionsOf this in
  let context := resolveContext options this in
  violations schema options = [] →
  options !! "publicPath" = Some (VString prefix) →
  result (resolveName interpolateName options this context content s) = Ok url →
  let o1 := resolveOutputPath options this url context s in
  result o1 = Ok outputPath →
  let literal :=
    Str.JSON_stringify
      ((if Str.endsWith prefix "/" then prefix else prefix ++ "/") ++ url) in
  let fallback := "__webpack_public_path__ + " ++ Str.JSON_stringify outputPath in
  let line expression :=
    (if esModule options then "export default" else "module.exports =")
    ++ " " ++ expression ++ ";" in
  (prefix ≠ "" →
   resolvePublicPath options this url context outputPath (final o1) =
     {| result := Ok literal; final := final o1; trace := [] |} ∧
   (options !! "postTransformPublicPath" = None →
    result (emit options this outputPath content (final o1)) = Ok tt →
    result (loader interpolateName this content s) = Ok (line literal))) ∧
  (prefix = "" →
   resolvePublicPath options this url context outputPath (final o1) =
     {| result := Ok fallback; final := final o1; trace := [] |} ∧
   resolvePublicPath options this url context outputPath (final o1) =
     resolvePublicPath (delete "publicPath" options) this url context
       outputPath (final o1) ∧
   (options !! "postTransformPublicPath" = None →
    result (emit options this outputPath content (final o1)) = Ok tt →
    result (loader interpolateName this content s) = Ok (line fallback))).
Proof.
  intros options context V L N o1 R1 literal fallback line.
  assert (G : ∀ expression,
             resolvePublicPath options this url context outputPath (final o1) =
               {| result := Ok expression; final := final o1; trace := [] |} →
             options !! "postTransformPublicPath" = None →
             result (emit options this outputPath content (final o1)) = Ok tt →
             result (loader interpolateName this content s) =
               Ok (line expression)).
  { intros expression B P E.
    pose proof V as V'.
    eapply (loader_chain this content s url outputPath) in V' as ->;
      try eassumption.
    - reflexivity.
    - fold options context o1. now rewrite B.
    - fold options context o1. rewrite B. cbn [final].
      unfold postTransformPublicPath. now rewrite P.
    - fold options context o1. rewrite B. cbn [final].
      unfold postTransformPublicPath. rewrite P. exact E. }
  split.
  - intros D.
    assert (B : resolvePublicPath options this url context outputPath
                  (final o1) =
                {| result := Ok literal; final := final o1; trace := [] |}).
    { unfold resolvePublicPath. rewrite L.
      destruct prefix; [contradiction|reflexivity]. }
    split; [exact B|]. now apply G.
  - intros ->.
    assert (B : resolvePublicPath options this url context outputPath
                  (final o1) =
                {| result := Ok fallback; final := final o1; trace := [] |}).
    { unfold resolvePublicPath. rewrite L. reflexivity. }
    split; [exact B|]. split; [|now apply G].
    rewrite B. unfold resolvePublicPath. rewrite lookup_delete_eq.
    reflexivity.
Qed.

(** C4.  With neither [publicPath] nor [postTransformPublicPath] in
    the options, the returned line concatenates the global
    [__webpack_public_path__], written as it is, with the JSON string
    literal of the output path; for the output path [abc123.png] and
    no [esModule] option it is the line of the specification. *)
Theorem default_publicPath_source this content s url outputPath :
  let options := optionsOf this in
  let context := resolveContext options this in
  violations schema options = [] →
  options !! "publicPath" = None →
  options !! "postTransformPublicPath" = None →
  result (resolveName interpolateName options this context content s) = Ok url →
  let o1 := resolveOutputPath options this url context s in
  result o1 = Ok outputPath →
  result (emit options this outputPath content (final o1)) = Ok tt →
  result (loader interpolateName this content s) =
    Ok ((if esModule options then "export default" else "module.exports =")
        ++ " "
        ++ ("__webpack_public_path__ + " ++ Str.JSON_stringify outputPath)
        ++ ";") ∧
  (options !! "esModule" = None →
   outputPath = "abc123.png" →
   result (loader interpolateName this content s) =
     Ok ("export default __webpack_public_path__ + "
         ++ Str.dquote ++ "abc123.png" ++ Str.dquote ++ ";")).
Proof.
  intros options context V L P N o1 R1 E.
  assert (B : ∀ st, resolvePublicPath options this url context outputPath st =
                    ret (defaultPublicPath outputPath) st).
  { intros st. unfold resolvePublicPath. now rewrite L. }
  assert (T : ∀ p (st : State U H),
             postTransformPublicPath options p st = ret p st).
  { intros p st. unfold postTransformPublicPath. now rewrite P. }
  assert (R : result (loader interpolateName this content s) =
              Ok (moduleSource options (defaultPublicPath outputPath))).
  { eapply (loader_chain this content s url outputPath); try eassumption.
    - fold options context o1. now rewrite B.
    - fold options context o1. now rewrite B, T.
    - fold options context o1. rewrite B, T. exact E. }
  split; [exact R|].
  intros M ->. rewrite R. unfold moduleSource, esModule. now rewrite M.
Qed.

(** C5, as amended.  [this.emitFile] is called exactly once, with
    the output path and the content, if and only if the loader has
    resolved the paths without a throw and [options.emitFile] is
    undefined or truthy; that call is what the loader does to the host
    and decides whether the line is returned.  A loader that throws
    before that point emits nothing.  When the paths are resolved and
    [options.emitFile] is [false], nothing is emitted, the host is as
    it was and the line built from the public path is returned all the
    same. *)
Theorem emission_decision this content s :
  let options := optionsOf this in
  let r := resolve interpolateName this content s in
  let o := loader interpolateName this content s in
  (∀ x, result r = Throw x →
     o = {| result := Throw x; final := final r; trace := trace r |} ∧
     emitted (trace o) = [] ∧
     host (final o) = host s) ∧
  (∀ l, result r = Ok l →
     let call := emitFile this (l_outputPath l) content (host s) in
     (emitted (trace o) = [(l_outputPath l, content)] ↔
      options !! "emitFile" = None ∨ truthy (options !! "emitFile") = true) ∧
     (emitted (trace o) = [] ↔ options !! "emitFile" = Some (VBool false)) ∧
     (options !! "emitFile" = None ∨ truthy (options !! "emitFile") = true →
      o = {| result :=
               match call.1 with
               | Ok _ => Ok (moduleSource options (l_publicPath l))
               | Throw x => Throw x
               end;
             final := {| user := user (final r); host := call.2 |};
             trace :=
               trace r
               ++ [ {| ev_call := CEmitFile (l_outputPath l) content;
                       ev_threw := is_throw call.1 |} ] |}) ∧
     (options !! "emitFile" = Some (VBool false) →
      o = {| result := Ok (moduleSource options (l_publicPath l));
             final := final r;
             trace := trace r |} ∧
      host (final o) = host s)).
Proof.
  intros options r o. subst r o.
  destruct (host_untouched_resolve this content s) as [Hh He].
  split.
  - intros x E. rewrite (loader_resolve_throws _ _ _ _ E).
    cbn [result final trace]. now repeat split.
  - intros l E call.
    pose proof (resolve_ok_inv _ _ _ _ E) as [V _]. fold options in V.
    rewrite (loader_after_resolve _ _ _ _ E). cbn [trace final result].
    rewrite emitted_app, He, emit_trace. fold options. cbn [app].
    rewrite <- shouldEmit_spec.
    split; [|split; [|split]].
    + destruct (shouldEmit options); cbn; split; congruence.
    + rewrite shouldEmit_false by assumption.
      destruct (shouldEmit options); cbn; split; congruence.
    + intros Y. unfold emit. rewrite Y. unfold call_host.
      cbn [result final trace]. rewrite Hh. fold call.
      destruct (call.1); reflexivity.
    + intros L. unfold emit, shouldEmit. rewrite L. cbn.
      rewrite app_nil_r. now split.
Qed.

(** C7.  A [postTransformPublicPath] function closes public-path
    resolution: it is the last call before emission, it is called with
    the expression that the resolution of the public path produced,
    whichever branch that was, and what it returns is the expression of
    the returned line, with nothing added to it. *)
Theorem postTransform_applied_last this content s f url outputPath publicPath :
  let options := optionsOf this in
  let context := resolveContext options this in
  violations schema options = [] →
  options !! "postTransformPublicPath" = Some (VFunction f) →
  result (resolveName interpolateName options this context content s) = Ok url →
  let o1 := resolveOutputPath options this url context s in
  result o1 = Ok outputPath →
  let o2 := resolvePublicPath options this url context outputPath (final o1) in
  result o2 = Ok publicPath →
  let call := f [publicPath] (user (final o2)) in
  let after := {| user := call.2; host := host (final o2) |} in
  trace (resolve interpolateName this content s) =
    {| ev_call := CInterpolateName (nameTemplate options) context content;
       ev_threw := false |}
    :: trace o1 ++ trace o2
    ++ [ {| ev_call := CPostTransformPublicPath publicPath;
            ev_threw := is_throw call.1 |} ] ∧
  ∀ transformed,
    call.1 = Ok transformed →
    result (resolve interpolateName this content s) =
      Ok {| l_context := context;
            l_url := url;
            l_outputPath := outputPath;
            l_publicPath := transformed |} ∧
    (result (emit options this outputPath content after) = Ok tt →
     result (loader interpolateName this content s) =
       Ok ((if esModule options then "export default" else "module.exports =")
           ++ " " ++ transformed ++ ";")).
Proof.
  intros options context V L N o1 R1 o2 R2 call after.
  pose proof (resolve_chain this content s url outputPath publicPath V N R1 R2)
    as C.
  cbv zeta in C. fold options context in C. fold o1 in C. fold o2 in C.
  assert (T : postTransformPublicPath options publicPath (final o2) =
              {| result := call.1;
                 final := after;
                 trace := [ {| ev_call := CPostTransformPublicPath publicPath;
                               ev_threw := is_throw call.1 |} ] |}).
  { unfold postTransformPublicPath. now rewrite L. }
  rewrite T in C. cbn [result final trace] in C.
  split; [now rewrite C|].
  intros transformed K. split.
  - rewrite C. cbn [result]. now rewrite K.
  - intros E.
    eapply (loader_chain this content s url outputPath) in V as ->;
      try eassumption.
    + reflexivity.
    + fold options context o1 o2. rewrite T. exact K.
    + fold options context o1 o2. rewrite T. exact E.
Qed.

(** C8.  When the functions found in the options return or throw
    according to their arguments only, and so does [this.emitFile],
    two runs of the loader on the same content and loader context give
    the same result wherever they start: the same name, output path and
    public path, the same returned line, and the same calls in the same
    order.  The second run may start where the first one ended. *)
Theorem loader_deterministic this content s s' :
  deterministic_options (optionsOf this) →
  deterministic_host this →
  result (resolve interpolateName this content s) =
    result (resolve interpolateName this content s') ∧
  result (loader interpolateName this content s) =
    result (loader interpolateName this content s') ∧
  trace (loader interpolateName this content s) =
    trace (loader interpolateName this content s') ∧
  result (loader interpolateName this content
            (final (loader interpolateName this content s))) =
    result (loader interpolateName this content s).
Proof.
  intros DO DH.
  destruct (stateless_loader this content DO DH) as [R L].
  repeat split; first [apply R | apply L].
Qed.


(** C2, as amended.  The context handed to [interpolateName] and to
    the functions of the user is [options.context] when that is a
    string that is not empty, and [this.rootContext] when it is absent
    or the empty string (the test is [||], not [??]); validation leaves
    no other case. *)
Theorem context_resolution this content s :
  let options := optionsOf this in
  let context := resolveContext options this in
  violations schema options = [] →
  match options !! "context" with
  | None => context = rootContext this
  | Some (VString c) =>
      (c = "" → context = rootContext this) ∧ (c ≠ "" → context = c)
  | Some _ => False
  end ∧
  hd_error (trace (loader interpolateName this content s)) =
    Some {| ev_call := CInterpolateName (nameTemplate options) context content;
            ev_threw :=
              is_throw
                (result
                   (resolveName interpolateName options this context content s))
         |} ∧
  ∀ l, result (resolve interpolateName this content s) = Ok l →
       l_context l = context.
Proof.
  intros options context V. split; [|split].
  - subst context. unfold resolveContext, string_or.
    destruct (options !! "context") as [v|] eqn:L; [|reflexivity].
    destruct (validated_string options "context" v eq_refl V L) as [c ->].
    destruct c; cbn; split; congruence.
  - now apply loader_first_call.
  - intros l E. now apply resolve_ok_inv in E as (_ & C & _).
Qed.

(** C9, as amended.  When [options.outputPath] is a string that is
    not empty, the output path is [path.posix.join(options.outputPath,
    url)], whatever the platform: the block does nothing else and calls
    nobody, and every run that returns carries that path.  When it is
    the empty string, it is treated as absent: the output path is the
    name as [interpolateName] returned it.  Joining [dist] and
    [abc123.png] gives [dist/abc123.png]. *)
Theorem outputPath_string this content s dir :
  let options := optionsOf this in
  options !! "outputPath" = Some (VString dir) →
  (dir ≠ "" →
   (∀ url context,
      resolveOutputPath options this url context s =
        {| result := Ok (Posix.join dir url); final := s; trace := [] |}) ∧
   (∀ l, result (resolve interpolateName this content s) = Ok l →
         l_outputPath l = Posix.join dir (l_url l))) ∧
  (dir = "" →
   (∀ url context,
      resolveOutputPath options this url context s =
        {| result := Ok url; final := s; trace := [] |}) ∧
   (∀ url context,
      resolveOutputPath options this url context s =
        resolveOutputPath (delete "outputPath" options) this url context s) ∧
   (∀ l, result (resolve interpolateName this content s) = Ok l →
         l_outputPath l = l_url l)) ∧
  Posix.join "dist" "abc123.png" = "dist/abc123.png".
Proof.
  intros options L.
  split; [|split].
  - intros D.
    assert (B : ∀ url context st,
               resolveOutputPath options this url context st =
                 {| result := Ok (Posix.join dir url);
                    final := st;
                    trace := [] |}).
    { intros url context st. unfold resolveOutputPath. rewrite L.
      destruct dir; [contradiction|reflexivity]. }
    split.
    + intros url context. apply B.
    + intros l E. apply resolve_ok_inv in E as (_ & _ & _ & R1 & _).
      fold options in R1. rewrite B in R1. cbn in R1. congruence.
  - intros ->.
    assert (B : ∀ url context st,
               resolveOutputPath options this url context st =
                 {| result := Ok url; final := st; trace := [] |}).
    { intros url context st. unfold resolveOutputPath. now rewrite L. }
    split; [|split].
    + intros url context. apply B.
    + intros url context. rewrite B. unfold resolveOutputPath.
      rewrite lookup_delete_eq. reflexivity.
    + intros l E. apply resolve_ok_inv in E as (_ & _ & _ & R1 & _).
      fold options in R1. rewrite B in R1. cbn in R1. congruence.
  - reflexivity.
Qed.


(** C10.  When a function supplied by the user (outputPath,
    publicPath or postTransformPublicPath) throws, the loader has not
    called [this.emitFile] and never will: the trace holds no call to
    it, the state of the host is the one the loader started from, and
    the loader itself ends by throwing. *)
Theorem user_throw_emits_nothing this content s :
  let o := loader interpolateName this content s in
  Exists (λ ev, is_user_call ev = true ∧ threw ev) (trace o) →
  emitted (trace o) = [] ∧ host (final o) = host s ∧
  is_throw (result o) = true.
Proof.
  cbv zeta. intros X.
  destruct (host_untouched_resolve this content s) as [Hh He].
  destruct (result (resolve interpolateName this content s)) as [l|x] eqn:E.
  - exfalso. rewrite (loader_after_resolve _ _ _ _ E) in X. cbn in X.
    apply Exists_app in X as [X|X].
    + assert (T : Exists threw (trace (resolve interpolateName this content s))).
      { eapply Exists_impl; [exact X|]. now intros ev [_ T]. }
      apply aborts_resolve in T. now rewrite E in T.
    + rewrite emit_trace in X. destruct (shouldEmit (optionsOf this)).
      * inversion X as [? ? [C _]|? ? C]; [discriminate C | inversion C].
      * inversion X.
  - rewrite (loader_resolve_throws _ _ _ _ E). cbn. now repeat split.
Qed.

(** C6.  An options object that the schema rejects makes the loader
    throw the validation error at once: the state is unchanged and the
    trace is empty, so neither [interpolateName] nor [this.emitFile]
    nor any function of the user was called.  Validation is the only
    step of the loader's own that rejects: once it has passed, the
    loader throws only when one of the calls it made threw. *)
Theorem validation_rejects_first this content s :
  let options := optionsOf this in
  let o := loader interpolateName this content s in
  (violations schema options ≠ [] →
   o = {| result :=
            Throw (ValidationError "File Loader" "options"
                     (violations schema options));
          final := s;
          trace := [] |}) ∧
  (violations schema options = [] →
   ∀ e, result o = Throw e → Exists threw (trace o)).
Proof.
  cbv zeta. split.
  - intros V.
    assert (R : resolve interpolateName this content s =
                throw (ValidationError "File Loader" "options"
                         (violations schema (optionsOf this))) s).
    { unfold resolve. erewrite bind_throw.
      - now rewrite (validateOptions_rejects _ _ _ _ V).
      - now rewrite (validateOptions_rejects _ _ _ _ V). }
    erewrite loader_resolve_throws; now rewrite R.
  - intros V e. now apply blame_loader.
Qed.

End Blocks.

(** ** The theorems at work on the small host *)

Ltac by_computation :=
  vm_compute;
  first
    [ reflexivity
    | discriminate
    | (let E := fresh in intros E; discriminate E) ].

(** C1: a function that returns [/cdn/abc123.png] gives a line with
    that path between quotes. *)
Lemma publicPath_function_witness :
  violations schema (optionsOf Demo.via_cdn) = [] ∧
  result (Demo.run Demo.via_cdn) =
    Ok ("export default " ++ Demo.quoted "/cdn/abc123.png" ++ ";").
Proof.
  unfold Demo.run, Demo.paths.
  split; [vm_compute; reflexivity|].
  pose proof (publicPath_function Demo.interpolateName
                Demo.via_cdn
                Demo.content Demo.start Demo.cdn "abc123.png" "abc123.png"
                "/cdn/abc123.png"
                ltac:(by_computation) ltac:(by_computation)
                ltac:(by_computation) ltac:(by_computation)
                ltac:(by_computation)) as [_ W].
  etransitivity; [apply W; by_computation | by_computation].
Defined.

(** C1 as stated fails: the value returned by the function is not
    embedded verbatim. *)
Lemma publicPath_function_is_quoted :
  (Demo.cdn ["abc123.png"; "/project/src/logo.png"; "/project"] 0).1 =
    Ok "/cdn/abc123.png" ∧
  result (Demo.run Demo.via_cdn) =
    Ok ("export default " ++ Demo.quoted "/cdn/abc123.png" ++ ";") ∧
  result (Demo.run Demo.via_cdn) ≠
    Ok "export default /cdn/abc123.png;".
Proof.
  unfold Demo.run, Demo.paths.
  split; [reflexivity|]. split; [vm_compute; reflexivity|].
  vm_compute. intros E. discriminate E.
Defined.

(** C2: a configured context is the one used. *)
Lemma context_resolution_witness :
  violations schema (optionsOf Demo.custom_context) = [] ∧
  optionsOf Demo.custom_context !! "context" = Some (VString "/custom") ∧
  hd_error (trace (Demo.run Demo.custom_context)) =
    Some {| ev_call :=
              CInterpolateName "[contenthash].[ext]" "/custom" Demo.content;
            ev_threw := false |}.
Proof.
  unfold Demo.run, Demo.paths.
  split; [by_computation|]. split; [by_computation|].
  pose proof (context_resolution Demo.interpolateName
                Demo.custom_context
                Demo.content Demo.start ltac:(by_computation))
    as (_ & W & _).
  etransitivity; [exact W | by_computation].
Defined.

(** C2 as stated fails: an empty [options.context] is present, yet the
    context is [this.rootContext]. *)
Lemma empty_context_falls_back :
  optionsOf Demo.empty_context !! "context" = Some (VString "") ∧
  violations schema (optionsOf Demo.empty_context) = [] ∧
  rootContext Demo.empty_context = "/project" ∧
  resolveContext (optionsOf Demo.empty_context) Demo.empty_context
    = "/project" ∧
  hd_error (trace (Demo.run Demo.empty_context)) =
    Some Demo.named ∧
  resolveContext (optionsOf Demo.empty_context) Demo.empty_context ≠ "".
Proof.
  unfold Demo.run, Demo.paths.
  repeat split; try (vm_compute; reflexivity).
  vm_compute. intros E. discriminate E.
Defined.

(** C3: the example of the specification, with an output path that
    the line ignores. *)
Lemma publicPath_string_witness :
  violations schema (optionsOf Demo.cdn_prefix) = [] ∧
  result (Demo.run Demo.cdn_prefix) =
    Ok ("export default "
        ++ Demo.quoted "https://cdn.example.com/abc123.png" ++ ";") ∧
  result (Demo.run Demo.empty_publicPath) =
    Ok ("export default __webpack_public_path__ + "
        ++ Demo.quoted "abc123.png" ++ ";").
Proof.
  unfold Demo.run, Demo.paths.
  split; [vm_compute; reflexivity|]. split.
  - pose proof (publicPath_string Demo.interpolateName
                  Demo.cdn_prefix
                  Demo.content Demo.start "https://cdn.example.com"
                  "abc123.png" "dist/abc123.png"
                  ltac:(by_computation) ltac:(by_computation)
                  ltac:(by_computation) ltac:(by_computation)) as [W _].
    destruct (W ltac:(by_computation)) as [_ W'].
    etransitivity; [apply W'; by_computation | by_computation].
  - pose proof (publicPath_string Demo.interpolateName
                  Demo.empty_publicPath
                  Demo.content Demo.start "" "abc123.png" "abc123.png"
                  ltac:(by_computation) ltac:(by_computation)
                  ltac:(by_computation) ltac:(by_computation)) as [_ W].
    destruct (W eq_refl) as (_ & _ & W').
    etransitivity; [apply W'; by_computation | by_computation].
Defined.

(** C3 as stated fails: the empty string is a string, and the line is
    the default one. *)
Lemma empty_publicPath_is_ignored :
  optionsOf Demo.empty_publicPath !! "publicPath" = Some (VString "") ∧
  violations schema (optionsOf Demo.empty_publicPath) = [] ∧
  result (Demo.run Demo.empty_publicPath) =
    Ok ("export default __webpack_public_path__ + "
        ++ Demo.quoted "abc123.png" ++ ";") ∧
  result (Demo.run Demo.empty_publicPath) ≠
    Ok ("export default " ++ Demo.quoted "/abc123.png" ++ ";").
Proof.
  unfold Demo.run, Demo.paths.
  repeat split; try (vm_compute; reflexivity).
  vm_compute. intros E. discriminate E.
Defined.

(** C4: the example of the specification. *)
Lemma default_publicPath_source_witness :
  violations schema (optionsOf Demo.plain) = [] ∧
  result (Demo.run Demo.plain) =
    Ok ("export default __webpack_public_path__ + "
        ++ Str.dquote ++ "abc123.png" ++ Str.dquote ++ ";").
Proof.
  unfold Demo.run, Demo.paths.
  split; [vm_compute; reflexivity|].
  pose proof (default_publicPath_source Demo.interpolateName Demo.plain
                Demo.content Demo.start "abc123.png" "abc123.png"
                ltac:(by_computation) ltac:(by_computation)
                ltac:(by_computation) ltac:(by_computation)
                ltac:(by_computation) ltac:(by_computation)) as [_ W].
  apply W; by_computation.
Defined.

(** C5: with [emitFile: false] nothing is emitted and the line is
    returned. *)
Lemma emission_decision_witness :
  emitted (trace (Demo.run Demo.no_emit)) = [] ∧
  host (final (Demo.run Demo.no_emit)) = [] ∧
  result (Demo.run Demo.no_emit) =
    Ok ("export default __webpack_public_path__ + "
        ++ Demo.quoted "dist/abc123.png" ++ ";") ∧
  host (final (Demo.run Demo.into_dist)) = [("dist/abc123.png", Demo.content)].
Proof.
  unfold Demo.run, Demo.paths.
  pose proof (emission_decision Demo.interpolateName
                Demo.no_emit Demo.content Demo.start) as [_ W].
  destruct (W {| l_context := "/project";
                 l_url := "abc123.png";
                 l_outputPath := "dist/abc123.png";
                 l_publicPath :=
                   "__webpack_public_path__ + "
                   ++ Demo.quoted "dist/abc123.png" |}
              ltac:(by_computation)) as (_ & W1 & _ & W2).
  destruct (W2 ltac:(by_computation)) as [W3 W4].
  split; [apply W1; by_computation|]. split; [exact W4|]. split.
  - etransitivity; [exact (f_equal result W3) | by_computation].
  - pose proof (emission_decision Demo.interpolateName
                  Demo.into_dist Demo.content Demo.start) as [_ V].
    destruct (V {| l_context := "/project";
                   l_url := "abc123.png";
                   l_outputPath := "dist/abc123.png";
                   l_publicPath :=
                     "__webpack_public_path__ + "
                     ++ Demo.quoted "dist/abc123.png" |}
                ltac:(by_computation)) as (_ & _ & V1 & _).
    etransitivity;
      [ exact (f_equal (λ o, host (final o)) (V1 ltac:(left; by_computation)))
      | by_computation ].
Defined.

(** C5 as stated fails: [options.emitFile] is undefined and the
    options are valid, yet [this.emitFile] is never called, because
    the function of [publicPath] threw before line 84. *)
Lemma undefined_emitFile_yet_no_emission :
  optionsOf Demo.throwing_late !! "emitFile" = None ∧
  violations schema (optionsOf Demo.throwing_late) = [] ∧
  result (Demo.run Demo.throwing_late) = Throw (Thrown "boom") ∧
  emitted (trace (Demo.run Demo.throwing_late)) = [] ∧
  emitted (trace (Demo.run Demo.throwing_late)) ≠
    [("static/abc123.png", Demo.content)].
Proof.
  repeat split; try (vm_compute; reflexivity).
  vm_compute. intros E. discriminate E.
Defined.

(** C6: the options [{foo: 1}] are rejected before anything is called;
    valid options whose function throws show a call that threw. *)
Lemma validation_rejects_first_witness :
  violations schema (optionsOf Demo.unknown_key) =
    [UnknownProperty "foo"] ∧
  Demo.run Demo.unknown_key =
    {| result :=
         Throw (ValidationError "File Loader" "options" [UnknownProperty "foo"]);
       final := Demo.start;
       trace := [] |} ∧
  Exists threw
    (trace (Demo.run Demo.throwing)).
Proof.
  unfold Demo.run, Demo.paths.
  split; [vm_compute; reflexivity|]. split.
  - apply (proj1 (validation_rejects_first Demo.interpolateName
                    Demo.unknown_key
                    Demo.content Demo.start)).
    vm_compute. intros E. discriminate E.
  - apply (proj2 (validation_rejects_first Demo.interpolateName
                    Demo.throwing
                    Demo.content Demo.start)
             eq_refl (Thrown "boom")).
    vm_compute; reflexivity.
Defined.

(** C7: the parentheses go around the literal that the function of
    [publicPath] produced. *)
Lemma postTransform_applied_last_witness :
  violations schema (optionsOf Demo.transformed) = [] ∧
  result (Demo.run Demo.transformed) =
    Ok ("export default (" ++ Demo.quoted "/cdn/abc123.png" ++ ");").
Proof.
  unfold Demo.run, Demo.paths.
  split; [vm_compute; reflexivity|].
  pose proof (postTransform_applied_last Demo.interpolateName
                Demo.transformed
                Demo.content Demo.start Demo.parens "abc123.png" "abc123.png"
                (Demo.quoted "/cdn/abc123.png")
                ltac:(by_computation) ltac:(by_computation)
                ltac:(by_computation) ltac:(by_computation)
                ltac:(by_computation)) as [_ W].
  destruct (W ("(" ++ Demo.quoted "/cdn/abc123.png" ++ ")")
              ltac:(by_computation)) as [_ W'].
  etransitivity; [apply W'; by_computation | by_computation].
Defined.

(** C8: a second run, started where the first one ended. *)
Lemma loader_deterministic_witness :
  user (final (Demo.run Demo.via_cdn)) = 1 ∧
  result (loader Demo.interpolateName Demo.via_cdn Demo.content
            (final (Demo.run Demo.via_cdn))) =
    result (Demo.run Demo.via_cdn).
Proof.
  unfold Demo.run, Demo.paths.
  split; [vm_compute; reflexivity|].
  apply (loader_deterministic Demo.interpolateName
           Demo.via_cdn
           Demo.content Demo.start Demo.start).
  - intros k f L. change (optionsOf _) with
      ({[ "publicPath" := VFunction Demo.cdn ]} : gmap string (value nat)) in L.
    apply lookup_singleton_Some in L as [_ L].
    injection L as <-. intros args u u'. reflexivity.
  - intros path content h h'. reflexivity.
Defined.

(** Without the hypothesis of C8 the conclusion is lost: a function
    that counts its calls names the file differently the second
    time. *)
Example fickle_function_changes_the_path :
  emitted (trace (Demo.run Demo.versioned)) = [("v0", Demo.content)] ∧
  emitted
    (trace (loader Demo.interpolateName Demo.versioned Demo.content
              (final (Demo.run Demo.versioned)))) =
    [("v1", Demo.content)].
Proof. split; vm_compute; reflexivity. Qed.

(** C9: the example of the specification. *)
Lemma outputPath_string_witness :
  optionsOf Demo.into_dist !! "outputPath" = Some (VString "dist") ∧
  resolveOutputPath (optionsOf Demo.into_dist) Demo.into_dist
    "abc123.png" "/project" Demo.start =
    {| result := Ok "dist/abc123.png"; final := Demo.start; trace := [] |} ∧
  l_outputPath
    {| l_context := "/project";
       l_url := "abc123.png";
       l_outputPath := "dist/abc123.png";
       l_publicPath :=
         "__webpack_public_path__ + " ++ Demo.quoted "dist/abc123.png" |} =
    Posix.join "dist" "abc123.png" ∧
  resolveOutputPath (optionsOf Demo.empty_outputPath) Demo.empty_outputPath
    "./logo.png" "/project" Demo.start =
    {| result := Ok "./logo.png"; final := Demo.start; trace := [] |}.
Proof.
  unfold Demo.run, Demo.paths.
  split; [by_computation|].
  pose proof (outputPath_string Demo.interpolateName
                Demo.into_dist
                Demo.content Demo.start "dist"
                ltac:(by_computation)) as (W & _ & _).
  destruct (W ltac:(by_computation)) as [W1 W2].
  split; [|split].
  - etransitivity; [apply W1 | by_computation].
  - apply W2. by_computation.
  - pose proof (outputPath_string Demo.interpolateName
                  Demo.empty_outputPath
                  Demo.content Demo.start ""
                  ltac:(by_computation)) as (_ & V & _).
    destruct (V eq_refl) as (V1 & _ & _). apply V1.
Defined.

(** C9 as stated fails: the empty string is a string, and the output
    path is the name as it is, which [path.posix.join] would have
    normalised. *)
Lemma empty_outputPath_is_ignored :
  optionsOf Demo.empty_outputPath !! "outputPath" = Some (VString "") ∧
  violations schema (optionsOf Demo.empty_outputPath) = [] ∧
  result (Demo.paths Demo.empty_outputPath) =
    Ok {| l_context := "/project";
          l_url := "./logo.png";
          l_outputPath := "./logo.png";
          l_publicPath :=
            "__webpack_public_path__ + " ++ Demo.quoted "./logo.png" |} ∧
  Posix.join "" "./logo.png" = "logo.png" ∧
  "./logo.png" ≠ Posix.join "" "./logo.png".
Proof.
  unfold Demo.run, Demo.paths.
  repeat split; try (vm_compute; reflexivity).
  vm_compute. intros E. discriminate E.
Defined.

(** C10: the function of [publicPath] throws after the one of
    [outputPath] has returned; nothing was emitted. *)
Lemma user_throw_emits_nothing_witness :
  emitted (trace (Demo.run Demo.throwing_late)) = [] ∧
  host (final (Demo.run Demo.throwing_late)) = [] ∧
  is_throw (result (Demo.run Demo.throwing_late)) = true.
Proof.
  unfold Demo.run, Demo.paths.
  apply (user_throw_emits_nothing Demo.interpolateName
           Demo.throwing_late
           Demo.content Demo.start).
  vm_compute.
  apply Exists_cons_tl, Exists_cons_tl, Exists_cons_hd. now split.
Defined.

(** ** More about the loader *)

Section Order.

Context {U H : Type}.

Lemma ordered_ret {A} (a : A) lo hi : ordered lo hi (ret (U:=U) (H:=H) a).
Proof. intros s. cbn. split; constructor. Qed.

Lemma ordered_throw {A} e lo hi :
  ordered lo hi (throw (U:=U) (H:=H) (A:=A) e).
Proof. intros s. cbn. split; constructor. Qed.

Lemma ordered_one lo hi (ev : Event) :
  lo ≤ rank ev < hi →
  StronglySorted lt (rank <$> [ev]) ∧ Forall (λ e, lo ≤ rank e < hi) [ev].
Proof.
  intros R. split.
  - cbn. repeat constructor.
  - now repeat constructor.
Qed.

Lemma ordered_call_pure c r lo hi :
  lo ≤ rank {| ev_call := c; ev_threw := false |} < hi →
  ordered lo hi (call_pure (U:=U) (H:=H) c r).
Proof. intros R s. now apply ordered_one. Qed.

Lemma ordered_call_user c (f : U → Result string * U) lo hi :
  lo ≤ rank {| ev_call := c; ev_threw := false |} < hi →
  ordered lo hi (call_user (H:=H) c f).
Proof. intros R s. now apply ordered_one. Qed.

Lemma ordered_call_host c (f : H → Result unit * H) lo hi :
  lo ≤ rank {| ev_call := c; ev_threw := false |} < hi →
  ordered lo hi (call_host (U:=U) c f).
Proof. intros R s. now apply ordered_one. Qed.

Lemma ordered_bind {A B} (m : M U H A) (k : A → M U H B) (lo mid hi : nat) :
  (lo ≤ mid)%nat → (mid ≤ hi)%nat →
  ordered lo mid m → (∀ a, ordered mid hi (k a)) → ordered lo hi (bind m k).
Proof.
  intros L1 L2 Hm Hk s. destruct (Hm s) as [S1 F1].
  destruct (result (m s)) as [a|e] eqn:E.
  - rewrite (bind_ok _ _ _ _ E). cbn.
    destruct (Hk a (final (m s))) as [S2 F2]. split.
    + rewrite fmap_app. apply StronglySorted_app. repeat split; try assumption.
      intros x1 x2 X1 X2.
      apply list_elem_of_fmap in X1 as (e1 & -> & X1).
      apply list_elem_of_fmap in X2 as (e2 & -> & X2).
      rewrite Forall_forall in F1, F2.
      specialize (F1 e1 X1). specialize (F2 e2 X2). lia.
    + apply Forall_app. split.
      * eapply Forall_impl; [exact F1|]. cbn. intros; lia.
      * eapply Forall_impl; [exact F2|]. cbn. intros; lia.
  - rewrite (bind_throw _ _ _ _ E). cbn. split; [assumption|].
    eapply Forall_impl; [exact F1|]. cbn. intros; lia.
Qed.

Lemma throw_ends_ret {A} (a : A) : throw_ends (ret (U:=U) (H:=H) a).
Proof. intros s. cbn. split; constructor. Qed.

Lemma throw_ends_throw {A} e : throw_ends (throw (U:=U) (H:=H) (A:=A) e).
Proof. intros s. cbn. split; constructor. Qed.

Lemma throw_ends_one c {A} (r : Result A) :
  Forall returned (removelast [ {| ev_call := c; ev_threw := is_throw r |} ]) ∧
  (is_throw r = false →
   Forall returned [ {| ev_call := c; ev_threw := is_throw r |} ]).
Proof. split; [constructor|]. intros E. now repeat constructor. Qed.

Lemma throw_ends_call_pure c r : throw_ends (call_pure (U:=U) (H:=H) c r).
Proof. intros s. apply throw_ends_one. Qed.

Lemma throw_ends_call_user c (f : U → Result string * U) :
  throw_ends (call_user (H:=H) c f).
Proof. intros s. apply throw_ends_one. Qed.

Lemma throw_ends_call_host c (f : H → Result unit * H) :
  throw_ends (call_host (U:=U) c f).
Proof. intros s. apply throw_ends_one. Qed.

Lemma Forall_removelast {A} (P : A → Prop) (l : list A) :
  Forall P l → Forall P (removelast l).
Proof.
  induction 1 as [|x l X F IH]; [constructor|].
  cbn. destruct l; [constructor|]. now constructor.
Qed.

Lemma throw_ends_bind {A B} (m : M U H A) (k : A → M U H B) :
  throw_ends m → (∀ a, throw_ends (k a)) → throw_ends (bind m k).
Proof.
  intros Hm Hk s. destruct (Hm s) as [L1 R1].
  destruct (result (m s)) as [a|e] eqn:E.
  - rewrite (bind_ok _ _ _ _ E). cbn.
    destruct (Hk a (final (m s))) as [L2 R2].
    specialize (R1 eq_refl). split.
    + destruct (trace (k a (final (m s)))) as [|ev t] eqn:T.
      * rewrite app_nil_r. now apply Forall_removelast.
      * rewrite removelast_app by discriminate. apply Forall_app. now split.
    + intros X. apply Forall_app. split; [assumption|]. now apply R2.
  - rewrite (bind_throw _ _ _ _ E). cbn. split; [assumption|discriminate].
Qed.

End Order.

#[local] Hint Resolve
  ordered_ret ordered_throw throw_ends_ret throw_ends_throw
  throw_ends_call_pure throw_ends_call_user throw_ends_call_host
  throw_ends_bind
  : loader.

Section Extras.

Context {U H : Type}.
Variable interpolateName :
  LoaderContext U H → string → InterpolateOptions U → Result string.

Implicit Types (options : gmap string (value U)) (this : LoaderContext U H).
Implicit Types (s : State U H) (content : Buffer).

(** X1.  Whatever the options and whatever the calls return or throw,
    the loader makes its calls in the order of the source:
    [interpolateName], the function of [outputPath], the function of
    [publicPath], the function of [postTransformPublicPath],
    [this.emitFile]; the places in the trace increase strictly, so no
    call is made twice and there are at most five. *)
Theorem calls_in_source_order this content s :
  let t := trace (loader interpolateName this content s) in
  StronglySorted lt (rank <$> t) ∧
  NoDup (rank <$> t) ∧
  (length t ≤ 5)%nat.
Proof.
  cbv zeta.
  assert (O : ordered 0 5 (loader interpolateName this content)).
  { unfold loader, resolve.
    apply (ordered_bind _ _ 0 4 5); [lia|lia| |].
    - apply (ordered_bind _ _ 0 0 4); [lia|lia| |].
      { unfold validateOptions. case_match; auto with loader. }
      intros _. apply (ordered_bind _ _ 0 1 4); [lia|lia| |].
      { apply ordered_call_pure. cbn. lia. }
      intros url. apply (ordered_bind _ _ 1 2 4); [lia|lia| |].
      { unfold resolveOutputPath. repeat case_match; auto with loader.
        apply ordered_call_user. cbn. lia. }
      intros outputPath. apply (ordered_bind _ _ 2 3 4); [lia|lia| |].
      { unfold resolvePublicPath. repeat case_match; auto with loader.
        apply (ordered_bind _ _ 2 3 3); [lia|lia| |auto with loader].
        apply ordered_call_user. cbn. lia. }
      intros publicPath. apply (ordered_bind _ _ 3 4 4); [lia|lia| |].
      { unfold postTransformPublicPath. repeat case_match; auto with loader.
        apply ordered_call_user. cbn. lia. }
      auto with loader.
    - intros l. apply (ordered_bind _ _ 4 5 5); [lia|lia| |auto with loader].
      unfold emit. case_match; auto with loader.
      apply ordered_call_host. cbn. lia. }
  destruct (O s) as [S F].
  set (t := trace (loader interpolateName this content s)) in *.
  assert (N : NoDup (rank <$> t)).
  { clearbody t. clear F. induction (rank <$> t) as [|x l IH]; [constructor|].
    apply StronglySorted_inv in S as [S X]. constructor; [|now apply IH].
    intros I. rewrite Forall_forall in X. specialize (X x I). lia. }
  repeat split; try assumption.
  assert (B : Forall (λ n, n < 5)%nat (rank <$> t)).
  { apply Forall_fmap. eapply Forall_impl; [exact F|]. cbn. intros; lia. }
  rewrite <- (length_fmap rank t). clearbody t. clear F.
  assert (G : ∀ (l : list nat) (b : nat), StronglySorted lt l → NoDup l →
              Forall (λ n, n < b)%nat l → (length l ≤ b)%nat).
  { clear. intros l b. revert l. induction b as [|b IH]; intros l S N B.
    - destruct l; [cbn; lia|]. apply Forall_cons in B as [B _]. lia.
    - destruct (decide (b ∈ l)) as [I|I].
      + apply list_elem_of_split in I as (l1 & l2 & ->).
        rewrite length_app. cbn.
        apply NoDup_app in N as (N1 & N12 & N2).
        apply NoDup_cons in N2 as [Nb N2].
        apply Forall_app in B as [B1 B2]. apply Forall_cons in B2 as [_ B2].
        apply StronglySorted_app in S as (S12 & S1 & S2).
        apply StronglySorted_inv in S2 as [S2 Sb].
        assert (l2 = []) as ->.
        { destruct l2 as [|y l2]; [reflexivity|].
          apply Forall_cons in Sb as [Sb _]. apply Forall_cons in B2 as [B2 _].
          lia. }
        cbn. enough (length l1 ≤ b)%nat by lia.
        apply IH; try assumption.
        rewrite Forall_forall. intros x X.
        assert (x < b)%nat; [|assumption].
        apply (S12 x b X). now left.
      + enough (length l ≤ b)%nat by lia. apply IH; try assumption.
        rewrite Forall_forall in *. intros x X. specialize (B x X).
        assert (x ≠ b) by (intros ->; contradiction). lia. }
  now apply G.
Qed.

(** X2.  The loader never goes on after a call that threw and never
    swallows what was thrown: in every trace only the last call can
    have thrown, and when the loader returns no call has. *)
Theorem no_call_after_a_throw this content s :
  let o := loader interpolateName this content s in
  Forall returned (removelast (trace o)) ∧
  (is_throw (result o) = false → Forall returned (trace o)).
Proof.
  cbv zeta. revert s.
  change (throw_ends (loader interpolateName this content)).
  unfold loader, emit, resolve, validateOptions, resolveName,
    resolveOutputPath, resolvePublicPath, postTransformPublicPath.
  by_blocks @throw_ends_bind.
Qed.

(** [resolve] from the point where the name is known. *)
Lemma resolve_after_name this content s url :
  let options := optionsOf this in
  let context := resolveContext options this in
  violations schema options = [] →
  result (resolveName interpolateName options this context content s) = Ok url →
  let o :=
    bind (resolveOutputPath options this url context)
      (λ outputPath,
         bind (resolvePublicPath options this url context outputPath)
           (λ publicPath,
              bind (postTransformPublicPath options publicPath)
                (λ publicPath',
                   ret {| l_context := context;
                          l_url := url;
                          l_outputPath := outputPath;
                          l_publicPath := publicPath' |}))) s in
  resolve interpolateName this content s =
    {| result := result o;
       final := final o;
       trace :=
         {| ev_call := CInterpolateName (nameTemplate options) context content;
            ev_threw := false |} :: trace o |}.
Proof.
  intros options context V N o. subst o.
  unfold resolve. fold options. fold context.
  rewrite (bind_ok _ _ s tt) by now rewrite validateOptions_ok.
  rewrite validateOptions_ok by assumption. cbn [ret final result trace].
  rewrite (bind_ok _ _ s url N).
  rewrite (resolveName_ok interpolateName _ _ _ _ _ _ N).
  reflexivity.
Qed.

(** X3.  What [interpolateName] throws is what the loader throws:
    nothing else has been called and the state is the initial one. *)
Theorem interpolateName_throw_propagates this content s e :
  let options := optionsOf this in
  let context := resolveContext options this in
  violations schema options = [] →
  interpolateName this (nameTemplate options)
    {| io_context := context;
       io_content := content;
       io_regExp := options !! "regExp" |} = Throw e →
  loader interpolateName this content s =
    {| result := Throw e;
       final := s;
       trace :=
         [ {| ev_call := CInterpolateName (nameTemplate options) context content;
              ev_threw := true |} ] |}.
Proof.
  intros options context V T.
  assert (R : resolve interpolateName this content s =
              {| result := Throw e;
                 final := s;
                 trace :=
                   [ {| ev_call :=
                          CInterpolateName (nameTemplate options) context content;
                        ev_threw := true |} ] |}).
  { unfold resolve. fold options. fold context.
    rewrite (bind_ok _ _ s tt) by now rewrite validateOptions_ok.
    rewrite validateOptions_ok by assumption. cbn [ret final result trace].
    erewrite bind_throw.
    - unfold resolveName, call_pure. cbn. now rewrite T.
    - unfold resolveName, call_pure. cbn. exact T. }
  erewrite loader_resolve_throws; now rewrite R.
Qed.

(** X4.  What the function of [outputPath] throws is what the loader
    throws: the functions of [publicPath] and [postTransformPublicPath]
    and [this.emitFile] are not called, and the host is as it was. *)
Theorem outputPath_throw_propagates this content s f url e u' :
  let options := optionsOf this in
  let context := resolveContext options this in
  violations schema options = [] →
  options !! "outputPath" = Some (VFunction f) →
  result (resolveName interpolateName options this context content s) = Ok url →
  f [url; resourcePath this; context] (user s) = (Throw e, u') →
  loader interpolateName this content s =
    {| result := Throw e;
       final := {| user := u'; host := host s |};
       trace :=
         [ {| ev_call := CInterpolateName (nameTemplate options) context content;
              ev_threw := false |};
           {| ev_call := COutputPath url (resourcePath this) context;
              ev_threw := true |} ] |}.
Proof.
  intros options context V L N T.
  pose proof (resolve_after_name this content s url V N) as R.
  cbv zeta in R. fold options context in R.
  erewrite bind_throw in R.
  2:{ unfold resolveOutputPath. rewrite L. cbn. now rewrite T. }
  unfold resolveOutputPath in R. rewrite L in R. cbn in R. rewrite T in R.
  cbn in R.
  erewrite loader_resolve_throws; now rewrite R.
Qed.

(** X5.  What the function of [publicPath] throws is what the loader
    throws.  The output path was already known, yet the file is not
    emitted: the trace ends with the call that threw. *)
Theorem publicPath_throw_propagates this content s f url outputPath e u' :
  let options := optionsOf this in
  let context := resolveContext options this in
  violations schema options = [] →
  options !! "publicPath" = Some (VFunction f) →
  result (resolveName interpolateName options this context content s) = Ok url →
  let o1 := resolveOutputPath options this url context s in
  result o1 = Ok outputPath →
  f [url; resourcePath this; context] (user (final o1)) = (Throw e, u') →
  loader interpolateName this content s =
    {| result := Throw e;
       final := {| user := u'; host := host (final o1) |};
       trace :=
         {| ev_call := CInterpolateName (nameTemplate options) context content;
            ev_threw := false |}
         :: trace o1
         ++ [ {| ev_call := CPublicPath url (resourcePath this) context;
                 ev_threw := true |} ] |}.
Proof.
  intros options context V L N o1 R1 T.
  pose proof (resolve_after_name this content s url V N) as R.
  cbv zeta in R. fold options context in R.
  rewrite (bind_ok _ _ _ _ R1) in R. fold o1 in R. cbn [result final trace] in R.
  erewrite bind_throw in R.
  2:{ unfold resolvePublicPath. rewrite L. erewrite bind_throw; [reflexivity|].
      cbn. now rewrite T. }
  unfold resolvePublicPath in R. rewrite L in R.
  erewrite bind_throw in R by (cbn; now rewrite T).
  cbn in R. rewrite T in R. cbn in R.
  erewrite loader_resolve_throws; now rewrite R.
Qed.

(** X6.  What the function of [postTransformPublicPath] throws is
    what the loader throws; the file is not emitted. *)
Theorem postTransform_throw_propagates
    this content s f url outputPath publicPath e u' :
  let options := optionsOf this in
  let context := resolveContext options this in
  violations schema options = [] →
  options !! "postTransformPublicPath" = Some (VFunction f) →
  result (resolveName interpolateName options this context content s) = Ok url →
  let o1 := resolveOutputPath options this url context s in
  result o1 = Ok outputPath →
  let o2 := resolvePublicPath options this url context outputPath (final o1) in
  result o2 = Ok publicPath →
  f [publicPath] (user (final o2)) = (Throw e, u') →
  loader interpolateName this content s =
    {| result := Throw e;
       final := {| user := u'; host := host (final o2) |};
       trace :=
         {| ev_call := CInterpolateName (nameTemplate options) context content;
            ev_threw := false |}
         :: trace o1 ++ trace o2
         ++ [ {| ev_call := CPostTransformPublicPath publicPath;
                 ev_threw := true |} ] |}.
Proof.
  intros options context V L N o1 R1 o2 R2 T.
  pose proof (resolve_chain interpolateName this content s url outputPath
                publicPath V N R1 R2) as R.
  cbv zeta in R. fold options context in R. fold o1 in R. fold o2 in R.
  unfold postTransformPublicPath in R. rewrite L in R. cbn in R.
  rewrite T in R. cbn in R.
  erewrite loader_resolve_throws; now rewrite R.
Qed.

(** X7.  What [this.emitFile] throws is what the loader throws, and
    no line is returned.  The call was made once, with the output path
    and the content, and is not made again. *)
Theorem emitFile_throw_propagates this content s l e h' :
  let options := optionsOf this in
  result (resolve interpolateName this content s) = Ok l →
  options !! "emitFile" = None ∨ truthy (options !! "emitFile") = true →
  emitFile this (l_outputPath l) content (host s) = (Throw e, h') →
  let o := loader interpolateName this content s in
  result o = Throw e ∧
  emitted (trace o) = [(l_outputPath l, content)] ∧
  final o =
    {| user := user (final (resolve interpolateName this content s));
       host := h' |}.
Proof.
  intros options E Y T o. subst o.
  destruct (host_untouched_resolve interpolateName this content s) as [Hh He].
  apply shouldEmit_spec in Y.
  rewrite (loader_after_resolve _ _ _ _ _ E). cbn [result final trace].
  rewrite emitted_app, He. unfold emit. fold options. rewrite Y.
  cbn. rewrite Hh, T. cbn. now repeat split.
Qed.

(** X8.  With neither [publicPath] nor [postTransformPublicPath], the
    path that the returned line adds to [__webpack_public_path__] is
    the path under which the file was emitted, whichever way the
    output path was obtained. *)
Theorem exported_path_is_emitted_path this content s source :
  let options := optionsOf this in
  let o := loader interpolateName this content s in
  options !! "publicPath" = None →
  options !! "postTransformPublicPath" = None →
  options !! "emitFile" = None ∨ truthy (options !! "emitFile") = true →
  result o = Ok source →
  ∃ outputPath,
    emitted (trace o) = [(outputPath, content)] ∧
    source =
      (if esModule options then "export default" else "module.exports =")
      ++ " "
      ++ ("__webpack_public_path__ + " ++ Str.JSON_stringify outputPath)
      ++ ";".
Proof.
  intros options o P T Y R. subst o.
  destruct (result (resolve interpolateName this content s)) as [l|x] eqn:E.
  2:{ rewrite (loader_resolve_throws _ _ _ _ _ E) in R. discriminate R. }
  destruct (host_untouched_resolve interpolateName this content s) as [Hh He].
  pose proof (resolve_ok_inv _ _ _ _ _ E) as (_ & _ & _ & _ & p & R2 & R3).
  fold options in R2, R3.
  exists (l_outputPath l).
  rewrite (loader_after_resolve _ _ _ _ _ E) in R |- *.
  cbn [result final trace] in *.
  rewrite emitted_app, He, emit_trace. fold options.
  apply shouldEmit_spec in Y. rewrite Y. cbn [app emitted ev_call].
  split; [reflexivity|].
  destruct (result (emit _ _ _ _ _)); [|discriminate R].
  injection R as <-.
  unfold postTransformPublicPath in R3. rewrite T in R3. cbn in R3.
  injection R3 as <-.
  unfold resolvePublicPath in R2. rewrite P in R2. cbn in R2.
  injection R2 as <-. reflexivity.
Qed.

Lemma Forall_trace_bind {A B} (P : Event → Prop)
    (m : M U H A) (k : A → M U H B) s :
  Forall P (trace (m s)) →
  (∀ a, result (m s) = Ok a → Forall P (trace (k a (final (m s))))) →
  Forall P (trace (bind m k s)).
Proof.
  intros Fm Fk. destruct (result (m s)) as [a|e] eqn:E.
  - rewrite (bind_ok _ _ _ _ E). cbn. apply Forall_app. split; auto.
  - now rewrite (bind_throw _ _ _ _ E).
Qed.

(** X9.  The functions of [outputPath] and [publicPath] are called
    with the same three arguments: the name that [interpolateName]
    returned (for [publicPath] too: not the output path), the path of
    the resource and the resolved context. *)
Theorem user_functions_get_the_name this content s ev url resource context :
  let options := optionsOf this in
  ev ∈ trace (loader interpolateName this content s) →
  ev_call ev = COutputPath url resource context ∨
  ev_call ev = CPublicPath url resource context →
  interpolateName this (nameTemplate options)
    {| io_context := resolveContext options this;
       io_content := content;
       io_regExp := options !! "regExp" |} = Ok url ∧
  resource = resourcePath this ∧
  context = resolveContext options this.
Proof.
  intros options I C.
  set (P := λ e : Event,
         ∀ u r c,
           ev_call e = COutputPath u r c ∨ ev_call e = CPublicPath u r c →
           interpolateName this (nameTemplate options)
             {| io_context := resolveContext options this;
                io_content := content;
                io_regExp := options !! "regExp" |} = Ok u ∧
           r = resourcePath this ∧ c = resolveContext options this).
  assert (One : ∀ c b, (∀ u r x, c ≠ COutputPath u r x ∧ c ≠ CPublicPath u r x) →
                       Forall P [ {| ev_call := c; ev_threw := b |} ]).
  { intros c b N. constructor; [|constructor].
    intros u1 r1 x1 [X|X]; cbn in X;
      destruct (N u1 r1 x1) as [N1 N2]; contradiction. }
  enough (F : Forall P (trace (loader interpolateName this content s))).
  { rewrite Forall_forall in F. exact (F ev I url resource context C). }
  unfold loader, resolve. fold options.
  apply Forall_trace_bind.
  - apply Forall_trace_bind.
    { unfold validateOptions. case_match; constructor. }
    intros _ _. apply Forall_trace_bind.
    { apply One. intros; split; discriminate. }
    intros name N. unfold resolveName, call_pure in N. cbn in N.
    apply Forall_trace_bind.
    { unfold resolveOutputPath. repeat case_match; try constructor.
      - intros u1 r1 c1 [X|X]; cbn in X; [|discriminate X].
        injection X as <- <- <-. now repeat split.
      - constructor. }
    intros outputPath _. apply Forall_trace_bind.
    { unfold resolvePublicPath. repeat case_match; try constructor.
      apply Forall_trace_bind; [|intros; constructor].
      constructor; [|constructor].
      intros u1 r1 c1 [X|X]; cbn in X; [discriminate X|].
      injection X as <- <- <-. now repeat split. }
    intros publicPath _. apply Forall_trace_bind; [|intros; constructor].
    unfold postTransformPublicPath. repeat case_match; try constructor.
    + intros u1 r1 c1 [X|X]; discriminate X.
    + constructor.
  - intros l _. apply Forall_trace_bind; [|intros; constructor].
    unfold emit. case_match; [|constructor].
    apply One. intros; split; discriminate.
Qed.

(** X10.  A loader without options ([getOptions] gives [null]) works
    with the empty object: validation passes, the default template and
    the root context name the file, the file is emitted under that
    name and the line is the default one. *)
Theorem loader_without_options this content s url h' :
  query this = None →
  interpolateName this "[contenthash].[ext]"
    {| io_context := rootContext this;
       io_content := content;
       io_regExp := None |} = Ok url →
  emitFile this url content (host s) = (Ok tt, h') →
  loader interpolateName this content s =
    {| result :=
         Ok ("export default "
             ++ ("__webpack_public_path__ + " ++ Str.JSON_stringify url)
             ++ ";");
       final := {| user := user s; host := h' |};
       trace :=
         [ {| ev_call :=
                CInterpolateName "[contenthash].[ext]" (rootContext this) content;
              ev_threw := false |};
           {| ev_call := CEmitFile url content; ev_threw := false |} ] |}.
Proof.
  intros Q N E.
  unfold loader, resolve, optionsOf, getOptions. rewrite Q. cbn [default].
  unfold validateOptions, resolveName, resolveContext, nameTemplate,
    resolveOutputPath, resolvePublicPath, postTransformPublicPath, emit,
    shouldEmit, moduleSource, esModule, defaultPublicPath.
  rewrite !lookup_empty. cbn [string_or violations].
  unfold violations. rewrite map_to_list_empty. cbn [omap].
  unfold bind, ret, call_pure, call_host. cbn. rewrite N. cbn.
  rewrite E. destruct s. reflexivity.
Qed.

(** X11.  The returned line is the public-path expression between a
    keyword and a semicolon; the keyword is [module.exports =] exactly
    when [options.esModule] is [false], and [export default] when it
    is [true] or missing. *)
Theorem module_format this content s source :
  let options := optionsOf this in
  result (loader interpolateName this content s) = Ok source →
  ∃ l,
    result (resolve interpolateName this content s) = Ok l ∧
    (options !! "esModule" = Some (VBool false) →
     source = "module.exports = " ++ l_publicPath l ++ ";") ∧
    (options !! "esModule" ≠ Some (VBool false) →
     source = "export default " ++ l_publicPath l ++ ";").
Proof.
  intros options R.
  destruct (result (resolve interpolateName this content s)) as [l|x] eqn:E.
  2:{ rewrite (loader_resolve_throws _ _ _ _ _ E) in R. discriminate R. }
  pose proof (resolve_ok_inv _ _ _ _ _ E) as [V _]. fold options in V.
  rewrite (loader_after_resolve _ _ _ _ _ E) in R. cbn [result] in R.
  destruct (result (emit _ _ _ _ _)); [|discriminate R].
  injection R as <-. exists l. split; [reflexivity|].
  unfold moduleSource, esModule. fold options.
  destruct (options !! "esModule") as [v|] eqn:L.
  - destruct (validated_boolean options "esModule" v eq_refl V L) as [b ->].
    destruct b; cbn [truthy].
    + split; [discriminate|reflexivity].
    + split; [reflexivity|congruence].
  - split; [discriminate|reflexivity].
Qed.

(** X12.  The template handed to [interpolateName] is [options.name]
    when that is a string that is not empty, and
    [[contenthash].[ext]] when it is missing or empty; validation
    leaves no other case. *)
Theorem name_template this content s :
  let options := optionsOf this in
  violations schema options = [] →
  ∃ template threw,
    hd_error (trace (loader interpolateName this content s)) =
      Some {| ev_call :=
                CInterpolateName template (resolveContext options this) content;
              ev_threw := threw |} ∧
    match options !! "name" with
    | None => template = "[contenthash].[ext]"
    | Some (VString n) =>
        (n = "" → template = "[contenthash].[ext]") ∧ (n ≠ "" → template = n)
    | Some _ => False
    end.
Proof.
  intros options V. eexists _, _. split.
  - now apply loader_first_call.
  - fold options. unfold nameTemplate, string_or.
    destruct (options !! "name") as [v|] eqn:L; [|reflexivity].
    destruct (validated_string options "name" v eq_refl V L) as [n ->].
    destruct n; cbn; split; congruence.
Qed.

Lemma endsWith_app_slash (p : string) : Str.endsWith (p ++ "/") "/" = true.
Proof.
  induction p as [|a p IH]; [reflexivity|].
  cbn. destruct p; [reflexivity|]. exact IH.
Qed.

(** X13.  A final slash on a [publicPath] string changes nothing: the
    prefix with the slash and the prefix without it give the same
    public-path expression, the literal of prefix, one slash and
    name. *)
Theorem publicPath_final_slash_is_optional
    options options' this url context outputPath s prefix :
  options !! "publicPath" = Some (VString prefix) →
  options' !! "publicPath" = Some (VString (prefix ++ "/")) →
  prefix ≠ "" →
  Str.endsWith prefix "/" = false →
  resolvePublicPath options' this url context outputPath s =
    resolvePublicPath options this url context outputPath s ∧
  resolvePublicPath options this url context outputPath s =
    {| result := Ok (Str.JSON_stringify ((prefix ++ "/") ++ url));
       final := s;
       trace := [] |}.
Proof.
  intros L L' N E. unfold resolvePublicPath, prefixed. rewrite L, L'.
  rewrite endsWith_app_slash, E.
  destruct prefix; [contradiction|]. cbn. now split.
Qed.

Lemma chars_app (a b : string) :
  list_ascii_of_string (a ++ b) =
    (list_ascii_of_string a ++ list_ascii_of_string b)%list.
Proof.
  induction a as [|x a IH]; [reflexivity|].
  simpl. f_equal. exact IH.
Qed.

Ltac no_c0_literal :=
  simpl; repeat (apply List.Forall_cons; [reflexivity|]); apply List.Forall_nil.

Lemma json_escape_no_c0 (a : ascii) :
  Forall not_c0_control (list_ascii_of_string (Str.json_escape a)).
Proof.
  destruct a as [[] [] [] [] [] [] [] []]; no_c0_literal.
Qed.

Lemma JSON_stringify_no_c0 (x : string) :
  Forall not_c0_control (list_ascii_of_string (Str.JSON_stringify x)).
Proof.
  unfold Str.JSON_stringify. rewrite !chars_app.
  repeat (apply Forall_app; split); try no_c0_literal.
  induction x as [|a x IH]; [constructor|].
  cbn [Str.json_body]. rewrite chars_app. apply Forall_app. split; [|exact IH].
  apply json_escape_no_c0.
Qed.

(** X14.  Unless a [postTransformPublicPath] function rewrites it,
    the returned line holds no byte below 0x20, whatever bytes the
    name, the output path or the value returned by the function of
    [publicPath] contain: [JSON.stringify] has escaped line feed,
    carriage return, tab and the other control characters U+0000 to
    U+001F.  Nothing is said of the bytes from 0x7F up, which
    [JSON.stringify] leaves as they are. *)
Theorem returned_line_has_no_c0_control this content s source :
  let options := optionsOf this in
  options !! "postTransformPublicPath" = None →
  result (loader interpolateName this content s) = Ok source →
  Forall not_c0_control (list_ascii_of_string source).
Proof.
  intros options T R.
  destruct (result (resolve interpolateName this content s)) as [l|x] eqn:E.
  2:{ rewrite (loader_resolve_throws _ _ _ _ _ E) in R. discriminate R. }
  pose proof (resolve_ok_inv _ _ _ _ _ E) as (_ & _ & _ & _ & p & R2 & R3).
  fold options in R2, R3.
  rewrite (loader_after_resolve _ _ _ _ _ E) in R. cbn [result] in R.
  destruct (result (emit _ _ _ _ _)); [|discriminate R].
  injection R as <-.
  unfold postTransformPublicPath in R3. rewrite T in R3. cbn in R3.
  injection R3 as <-.
  assert (P : Forall not_c0_control (list_ascii_of_string p)).
  { unfold resolvePublicPath in R2.
    assert (D : ∀ x, Forall not_c0_control
                       (list_ascii_of_string (defaultPublicPath x))).
    { intros x. unfold defaultPublicPath. rewrite chars_app.
      apply Forall_app. split; [no_c0_literal|].
      apply JSON_stringify_no_c0. }
    repeat case_match; cbn in R2; try (injection R2 as <-; apply D).
    - injection R2 as <-. apply JSON_stringify_no_c0.
    - unfold bind in R2. cbn in R2. case_match; [|discriminate R2].
      cbn in R2. injection R2 as <-. apply JSON_stringify_no_c0. }
  unfold moduleSource. rewrite !chars_app.
  repeat (apply Forall_app; split); try assumption;
    try (destruct (esModule _)); no_c0_literal.
Qed.

Lemma append_assoc (a b c : string) : (a ++ b) ++ c = a ++ b ++ c.
Proof.
  induction a as [|x a IH]; [reflexivity|].
  change (String x ((a ++ b) ++ c) = String x (a ++ b ++ c)).
  now rewrite IH.
Qed.

Lemma split_from_app (cur a b : string) :
  Posix.split_from cur (a ++ String Posix.slash b) =
    (Posix.split_from cur a ++ Posix.split_from "" b)%list.
Proof.
  revert cur. induction a as [|x a IH]; intros cur; [reflexivity|].
  change (String x a ++ String Posix.slash b)
    with (String x (a ++ String Posix.slash b)).
  cbn [Posix.split_from].
  destruct (Ascii.eqb x Posix.slash); rewrite IH; reflexivity.
Qed.

Lemma endsWith_app (a b : string) (c : ascii) :
  b ≠ "" → Str.endsWith (a ++ b) c = Str.endsWith b c.
Proof.
  intros N. induction a as [|x a IH]; [reflexivity|].
  change (String x a ++ b) with (String x (a ++ b)). cbn [Str.endsWith].
  destruct (a ++ b) as [|y r] eqn:E; [|exact IH].
  destruct a; [cbn in E; contradiction|discriminate E].
Qed.

Lemma normalize_doubled_slash (dir url : string) :
  dir ≠ "" → url ≠ "" →
  Posix.normalize (dir ++ "/" ++ "/" ++ url) =
    Posix.normalize (dir ++ "/" ++ url).
Proof.
  intros D N. unfold Posix.normalize.
  assert (E1 : Str.is_empty (dir ++ "/" ++ "/" ++ url) = false)
    by (destruct dir; [contradiction|reflexivity]).
  assert (E2 : Str.is_empty (dir ++ "/" ++ url) = false)
    by (destruct dir; [contradiction|reflexivity]).
  assert (A : Posix.isAbsolute (dir ++ "/" ++ "/" ++ url) =
              Posix.isAbsolute (dir ++ "/" ++ url))
    by (destruct dir; [contradiction|reflexivity]).
  assert (T : Str.endsWith (dir ++ "/" ++ "/" ++ url) Posix.slash =
              Str.endsWith (dir ++ "/" ++ url) Posix.slash).
  { rewrite <- !append_assoc. rewrite !endsWith_app by assumption.
    reflexivity. }
  assert (S : ∀ b, Posix.normalizeString (dir ++ "/" ++ "/" ++ url) b =
                   Posix.normalizeString (dir ++ "/" ++ url) b).
  { intros b. unfold Posix.normalizeString, Posix.split.
    change (dir ++ "/" ++ "/" ++ url)
      with (dir ++ String Posix.slash (String Posix.slash url)).
    change (dir ++ "/" ++ url) with (dir ++ String Posix.slash url).
    rewrite !split_from_app. cbn [Posix.split_from].
    change (Ascii.eqb Posix.slash Posix.slash) with true. cbn iota.
    rewrite !fold_left_app. reflexivity. }
  rewrite E1, E2, A, T, S. reflexivity.
Qed.

(** X15.  A final slash on an [outputPath] string changes nothing
    either: [path.posix.join] drops the empty segment, so the
    directory with the slash and the directory without it give the
    same output path. *)
Theorem outputPath_final_slash_is_optional
    options options' this url context s dir :
  options !! "outputPath" = Some (VString dir) →
  options' !! "outputPath" = Some (VString (dir ++ "/")) →
  dir ≠ "" →
  url ≠ "" →
  resolveOutputPath options' this url context s =
    resolveOutputPath options this url context s ∧
  Posix.join (dir ++ "/") url = Posix.join dir url.
Proof.
  intros L L' D N.
  assert (J : Posix.join (dir ++ "/") url = Posix.join dir url).
  { unfold Posix.join.
    destruct dir as [|d dir]; [contradiction|].
    destruct url as [|c url]; [contradiction|].
    cbn [Str.is_empty append].
    change (String d (dir ++ "/") ++ "/" ++ String c url)
      with ((String d dir ++ "/") ++ "/" ++ String c url).
    rewrite append_assoc.
    now apply normalize_doubled_slash. }
  split; [|exact J].
  unfold resolveOutputPath. rewrite L, L'.
  destruct dir as [|d dir]; [contradiction|]. cbn [Str.is_empty append].
  change (String d (dir ++ "/")) with (String d dir ++ "/").
  now rewrite J.
Qed.

Lemma user_untouched_ret {A} (a : A) : user_untouched (ret (U:=U) (H:=H) a).
Proof. intros st. split; [reflexivity|constructor]. Qed.

Lemma user_untouched_throw {A} e :
  user_untouched (throw (U:=U) (H:=H) (A:=A) e).
Proof. intros st. split; [reflexivity|constructor]. Qed.

Lemma user_untouched_call_pure name context content r :
  user_untouched
    (call_pure (U:=U) (H:=H) (CInterpolateName name context content) r).
Proof. intros st. split; [reflexivity|]. now repeat constructor. Qed.

Lemma user_untouched_call_host outputPath content (f : H → Result unit * H) :
  user_untouched (call_host (U:=U) (CEmitFile outputPath content) f).
Proof. intros st. split; [reflexivity|]. now repeat constructor. Qed.

Lemma user_untouched_bind {A B} (m : M U H A) (k : A → M U H B) :
  user_untouched m → (∀ a, user_untouched (k a)) → user_untouched (bind m k).
Proof.
  intros Hm Hk st. destruct (Hm st) as [Um Fm].
  destruct (result (m st)) as [a|e] eqn:E.
  - rewrite (bind_ok _ _ _ _ E). cbn.
    destruct (Hk a (final (m st))) as [Uk Fk]. split; [congruence|].
    apply Forall_app. now split.
  - rewrite (bind_throw _ _ _ _ E). now split.
Qed.

(** X16.  When no option is a function the loader runs no code of the
    user: the trace holds no call to one, and what the user's code can
    see is left as it was. *)
Theorem no_function_no_user_code this content s :
  let o := loader interpolateName this content s in
  (∀ k f, optionsOf this !! k ≠ Some (VFunction f)) →
  user (final o) = user s ∧
  Forall (λ ev, is_user_call ev = false) (trace o).
Proof.
  cbv zeta. intros NF. revert s.
  change (user_untouched (loader interpolateName this content)).
  unfold loader, emit, resolve, validateOptions, resolveName,
    resolveOutputPath, resolvePublicPath, postTransformPublicPath.
  repeat (first
    [ apply user_untouched_bind
    | match goal with |- ∀ _, _ => intro end
    | case_match ]);
    try (exfalso; eapply NF; eassumption);
    auto using user_untouched_ret, user_untouched_throw,
      user_untouched_call_pure, user_untouched_call_host.
Qed.

(** X17.  The loader changes the host through [this.emitFile] and
    through nothing else: the state of the host at the end is what the
    calls to [this.emitFile] recorded in the trace made of the initial
    one, and each of them was given the content the loader received,
    untouched. *)
Theorem host_changes_by_emitFile_only this content s :
  let o := loader interpolateName this content s in
  Forall (λ pc, pc.2 = content) (emitted (trace o)) ∧
  host (final o) =
    fold_left (λ h pc, (emitFile this pc.1 pc.2 h).2)
      (emitted (trace o)) (host s).
Proof.
  cbv zeta.
  destruct (host_untouched_resolve interpolateName this content s) as [Hh He].
  destruct (result (resolve interpolateName this content s)) as [l|x] eqn:E.
  - rewrite (loader_after_resolve _ _ _ _ _ E). cbn [result final trace].
    rewrite emitted_app, He. cbn [app]. unfold emit.
    destruct (shouldEmit (optionsOf this)); cbn.
    + rewrite Hh. split; [now repeat constructor|reflexivity].
    + split; [constructor|exact Hh].
  - rewrite (loader_resolve_throws _ _ _ _ _ E). cbn [result final trace].
    rewrite He. cbn. split; [constructor|exact Hh].
Qed.

End Extras.

(** ** Quoting loses nothing *)

Lemma json_unescape_escape (a : ascii) (r : string) :
  json_unescape (Str.json_escape a ++ r) = Some (a, r).
Proof. destruct a as [[] [] [] [] [] [] [] []]; reflexivity. Qed.

Lemma json_unescape_end (r : string) : json_unescape (Str.dquote ++ r) = None.
Proof. reflexivity. Qed.

Lemma json_body_inj (a b : string) :
  Str.json_body a ++ Str.dquote = Str.json_body b ++ Str.dquote → a = b.
Proof.
  revert b. induction a as [|x a IH]; intros [|y b] E.
  - reflexivity.
  - exfalso. apply (f_equal json_unescape) in E.
    cbn [Str.json_body] in E. rewrite append_assoc in E.
    rewrite json_unescape_escape in E. discriminate E.
  - exfalso. apply (f_equal json_unescape) in E.
    cbn [Str.json_body] in E. rewrite append_assoc in E.
    rewrite json_unescape_escape in E. discriminate E.
  - apply (f_equal json_unescape) in E.
    cbn [Str.json_body] in E. rewrite !append_assoc in E.
    rewrite !json_unescape_escape in E.
    injection E as -> E. f_equal. now apply IH.
Qed.

(** X18.  [JSON.stringify] loses nothing of a path: two paths with
    the same literal are the same path, so the expression of the
    default branch tells the output path and the literal of the other
    branches tells the public path. *)
Theorem quoting_is_injective (a b : string) :
  (Str.JSON_stringify a = Str.JSON_stringify b → a = b) ∧
  (defaultPublicPath a = defaultPublicPath b → a = b).
Proof.
  assert (J : Str.JSON_stringify a = Str.JSON_stringify b → a = b).
  { unfold Str.JSON_stringify. intros E.
    apply json_body_inj.
    change (Str.dquote ++ Str.json_body a ++ Str.dquote)
      with (String (ascii_of_N 34) (Str.json_body a ++ Str.dquote)) in E.
    change (Str.dquote ++ Str.json_body b ++ Str.dquote)
      with (String (ascii_of_N 34) (Str.json_body b ++ Str.dquote)) in E.
    now injection E. }
  split; [exact J|].
  unfold defaultPublicPath. intros E. apply J.
  now apply (String.app_inj "__webpack_public_path__ + ").
Qed.

(** X18: a path has the literal it has. *)
Lemma quoting_is_injective_witness :
  Str.JSON_stringify "a.png" = Str.JSON_stringify "a.png" ∧ "a.png" = "a.png".
Proof.
  split; [reflexivity|].
  exact (proj1 (quoting_is_injective "a.png" "a.png") eq_refl).
Defined.

(** ** These theorems at work on the small host *)

(** X3: the library throws, the loader throws the same. *)
Lemma interpolateName_throw_propagates_witness :
  loader Demo.failing_interpolateName Demo.plain Demo.content Demo.start =
    {| result := Throw (Thrown "unknown hash");
       final := Demo.start;
       trace :=
         [ {| ev_call :=
                CInterpolateName "[contenthash].[ext]" "/project" Demo.content;
              ev_threw := true |} ] |}.
Proof.
  exact (interpolateName_throw_propagates Demo.failing_interpolateName
           Demo.plain Demo.content Demo.start (Thrown "unknown hash")
           ltac:(by_computation) ltac:(by_computation)).
Defined.

(** X4: the function of [outputPath] throws. *)
Lemma outputPath_throw_propagates_witness :
  Demo.run Demo.throwing_early =
    {| result := Throw (Thrown "boom");
       final := {| user := 1; host := [] |};
       trace :=
         [ Demo.named;
           {| ev_call :=
                COutputPath "abc123.png" "/project/src/logo.png" "/project";
              ev_threw := true |} ] |}.
Proof.
  exact (outputPath_throw_propagates Demo.interpolateName
           Demo.throwing_early Demo.content Demo.start Demo.boom
           "abc123.png" (Thrown "boom") 1
           ltac:(by_computation) ltac:(by_computation)
           ltac:(by_computation) ltac:(by_computation)).
Defined.

(** X5: the function of [publicPath] throws after the one of
    [outputPath] has returned. *)
Lemma publicPath_throw_propagates_witness :
  Demo.run Demo.throwing_late =
    {| result := Throw (Thrown "boom");
       final := {| user := 2; host := [] |};
       trace :=
         [ Demo.named;
           {| ev_call :=
                COutputPath "abc123.png" "/project/src/logo.png" "/project";
              ev_threw := false |};
           {| ev_call :=
                CPublicPath "abc123.png" "/project/src/logo.png" "/project";
              ev_threw := true |} ] |}.
Proof.
  etransitivity;
    [ exact (publicPath_throw_propagates Demo.interpolateName
               Demo.throwing_late Demo.content Demo.start Demo.boom
               "abc123.png" "static/abc123.png" (Thrown "boom") 2
               ltac:(by_computation) ltac:(by_computation)
               ltac:(by_computation) ltac:(by_computation)
               ltac:(by_computation))
    | by_computation ].
Defined.

(** X6: the function of [postTransformPublicPath] throws. *)
Lemma postTransform_throw_propagates_witness :
  Demo.run Demo.throwing_last =
    {| result := Throw (Thrown "boom");
       final := {| user := 1; host := [] |};
       trace :=
         [ Demo.named;
           {| ev_call :=
                CPostTransformPublicPath
                  ("__webpack_public_path__ + " ++ Demo.quoted "abc123.png");
              ev_threw := true |} ] |}.
Proof.
  etransitivity;
    [ exact (postTransform_throw_propagates Demo.interpolateName
               Demo.throwing_last Demo.content Demo.start Demo.boom
               "abc123.png" "abc123.png"
               ("__webpack_public_path__ + " ++ Demo.quoted "abc123.png")
               (Thrown "boom") 1
               ltac:(by_computation) ltac:(by_computation)
               ltac:(by_computation) ltac:(by_computation)
               ltac:(by_computation) ltac:(by_computation))
    | by_computation ].
Defined.

(** X7: the host refuses the file. *)
Lemma emitFile_throw_propagates_witness :
  result (Demo.run Demo.read_only) = Throw (Thrown "read-only") ∧
  emitted (trace (Demo.run Demo.read_only)) = [("abc123.png", Demo.content)].
Proof.
  pose proof (emitFile_throw_propagates Demo.interpolateName
                Demo.read_only Demo.content Demo.start
                {| l_context := "/project";
                   l_url := "abc123.png";
                   l_outputPath := "abc123.png";
                   l_publicPath :=
                     "__webpack_public_path__ + " ++ Demo.quoted "abc123.png" |}
                (Thrown "read-only") []
                ltac:(by_computation)
                ltac:(left; by_computation)
                ltac:(by_computation)) as (W1 & W2 & _).
  split; [exact W1 | exact W2].
Defined.

(** X8: the file goes to [dist/abc123.png] and the line says so. *)
Lemma exported_path_is_emitted_path_witness :
  ∃ outputPath,
    emitted (trace (Demo.run Demo.into_dist)) = [(outputPath, Demo.content)] ∧
    "export default __webpack_public_path__ + "
    ++ Demo.quoted "dist/abc123.png" ++ ";" =
      (if esModule (optionsOf Demo.into_dist)
       then "export default" else "module.exports =")
      ++ " "
      ++ ("__webpack_public_path__ + " ++ Str.JSON_stringify outputPath)
      ++ ";".
Proof.
  exact (exported_path_is_emitted_path Demo.interpolateName
           Demo.into_dist Demo.content Demo.start
           ("export default __webpack_public_path__ + "
            ++ Demo.quoted "dist/abc123.png" ++ ";")
           ltac:(by_computation) ltac:(by_computation)
           ltac:(left; by_computation) ltac:(by_computation)).
Defined.

(** X9: the function of [publicPath] is called with the name, though
    the function of [outputPath] has made another path of it. *)
Lemma user_functions_get_the_name_witness :
  emitted (trace (Demo.run Demo.both_functions)) =
    [("static/abc123.png", Demo.content)] ∧
  Demo.interpolateName Demo.both_functions
    (nameTemplate (optionsOf Demo.both_functions))
    {| io_context :=
         resolveContext (optionsOf Demo.both_functions) Demo.both_functions;
       io_content := Demo.content;
       io_regExp := optionsOf Demo.both_functions !! "regExp" |} =
    Ok "abc123.png" ∧
  "/project/src/logo.png" = resourcePath Demo.both_functions ∧
  "/project" =
    resolveContext (optionsOf Demo.both_functions) Demo.both_functions.
Proof.
  split; [by_computation|].
  apply (user_functions_get_the_name Demo.interpolateName
           Demo.both_functions Demo.content Demo.start
           {| ev_call :=
                CPublicPath "abc123.png" "/project/src/logo.png" "/project";
              ev_threw := false |}).
  - vm_compute. do 2 apply list_elem_of_further. apply list_elem_of_here.
  - right. reflexivity.
Defined.

(** X10: no query. *)
Lemma loader_without_options_witness :
  Demo.run Demo.bare =
    {| result :=
         Ok ("export default "
             ++ ("__webpack_public_path__ + "
                 ++ Str.JSON_stringify "abc123.png")
             ++ ";");
       final := {| user := 0; host := [("abc123.png", Demo.content)] |};
       trace :=
         [ Demo.named;
           {| ev_call := CEmitFile "abc123.png" Demo.content;
              ev_threw := false |} ] |}.
Proof.
  exact (loader_without_options Demo.interpolateName Demo.bare Demo.content
           Demo.start "abc123.png" [("abc123.png", Demo.content)]
           eq_refl eq_refl eq_refl).
Defined.

(** X11: [esModule: false]. *)
Lemma module_format_witness :
  ∃ l,
    result (Demo.paths Demo.commonjs) = Ok l ∧
    (optionsOf Demo.commonjs !! "esModule" = Some (VBool false) →
     "module.exports = __webpack_public_path__ + "
     ++ Demo.quoted "abc123.png" ++ ";" =
       "module.exports = " ++ l_publicPath l ++ ";") ∧
    (optionsOf Demo.commonjs !! "esModule" ≠ Some (VBool false) →
     "module.exports = __webpack_public_path__ + "
     ++ Demo.quoted "abc123.png" ++ ";" =
       "export default " ++ l_publicPath l ++ ";").
Proof.
  exact (module_format Demo.interpolateName Demo.commonjs Demo.content
           Demo.start
           ("module.exports = __webpack_public_path__ + "
            ++ Demo.quoted "abc123.png" ++ ";")
           ltac:(by_computation)).
Defined.

(** X12: a template of one's own. *)
Lemma name_template_witness :
  ∃ template threw,
    hd_error (trace (Demo.run Demo.empty_outputPath)) =
      Some {| ev_call :=
                CInterpolateName template
                  (resolveContext (optionsOf Demo.empty_outputPath)
                     Demo.empty_outputPath)
                  Demo.content;
              ev_threw := threw |} ∧
    match optionsOf Demo.empty_outputPath !! "name" with
    | None => template = "[contenthash].[ext]"
    | Some (VString n) =>
        (n = "" → template = "[contenthash].[ext]") ∧ (n ≠ "" → template = n)
    | Some _ => False
    end.
Proof.
  exact (name_template Demo.interpolateName Demo.empty_outputPath
           Demo.content Demo.start ltac:(by_computation)).
Defined.

(** X13: [https://cdn.example.com] with and without the slash. *)
Lemma publicPath_final_slash_is_optional_witness :
  resolvePublicPath Demo.cdn_prefix_slash Demo.plain
    "abc123.png" "/project" "abc123.png" Demo.start =
    resolvePublicPath (optionsOf Demo.cdn_prefix) Demo.plain
      "abc123.png" "/project" "abc123.png" Demo.start.
Proof.
  apply (publicPath_final_slash_is_optional
           (optionsOf Demo.cdn_prefix) Demo.cdn_prefix_slash Demo.plain
           "abc123.png" "/project" "abc123.png" Demo.start
           "https://cdn.example.com");
    by_computation.
Defined.

(** X14: a line feed in the name is not left in the line. *)
Lemma returned_line_has_no_c0_control_witness :
  result (Demo.run Demo.odd_name) =
    Ok ("export default "
        ++ Demo.quoted "https://cdn.example.com/a\nb.png" ++ ";") ∧
  Forall not_c0_control
    (list_ascii_of_string
       ("export default "
        ++ Demo.quoted "https://cdn.example.com/a\nb.png" ++ ";")).
Proof.
  split; [by_computation|].
  exact (returned_line_has_no_c0_control Demo.interpolateName Demo.odd_name
           Demo.content Demo.start _
           ltac:(by_computation) ltac:(by_computation)).
Defined.

(** X15: [dist] with and without the slash. *)
Lemma outputPath_final_slash_is_optional_witness :
  resolveOutputPath Demo.into_dist_slash Demo.plain
    "abc123.png" "/project" Demo.start =
    resolveOutputPath (optionsOf Demo.into_dist) Demo.plain
      "abc123.png" "/project" Demo.start ∧
  Posix.join "dist/" "abc123.png" = "dist/abc123.png".
Proof.
  destruct (outputPath_final_slash_is_optional
              (optionsOf Demo.into_dist) Demo.into_dist_slash Demo.plain
              "abc123.png" "/project" Demo.start "dist"
              ltac:(by_computation) ltac:(by_computation)
              ltac:(by_computation) ltac:(by_computation)) as [W1 W2].
  split; [exact W1|]. etransitivity; [exact W2 | by_computation].
Defined.

(** X16: options without a function. *)
Lemma no_function_no_user_code_witness :
  user (final (Demo.run Demo.no_emit)) = 0 ∧
  Forall (λ ev, is_user_call ev = false) (trace (Demo.run Demo.no_emit)).
Proof.
  apply (no_function_no_user_code Demo.interpolateName Demo.no_emit
           Demo.content Demo.start).
  intros k f L.
  change (optionsOf Demo.no_emit)
    with (<[ "emitFile" := VBool false ]>
            ({[ "outputPath" := VString "dist" ]} : gmap string (value nat)))
    in L.
  apply lookup_insert_Some in L as [[_ L]|[_ L]]; [discriminate L|].
  apply lookup_singleton_Some in L as [_ L]. discriminate L.
Defined.
